(** * RegExp execution protocol helpers: src/regexp/regexp-utils.cc

    A shallow embedding of [RegExpUtils] and the properties its
    specification states about it.  The functions of the file are written
    against the collaborators they call (generic property access, callable
    invocation, length coercion, the map of a receiver); those form the
    [Host] interface below. *)

From Stdlib Require Import ZArith List Bool Lia.
From Stdlib Require Import Strings.String Strings.Ascii.
From Stdlib Require Import Floats.SpecFloat.
Import ListNotations.
Local Open Scope Z_scope.

(** ** Machine integers *)

(** [int] is a 32-bit two's-complement integer; arithmetic on it is written
    with its wrap-around. *)
Module Int.
Definition kMinInt : Z := - 2 ^ 31.
Definition kMaxInt : Z := 2 ^ 31 - 1.

Definition wrap (z : Z) : Z := (z + 2 ^ 31) mod 2 ^ 32 - 2 ^ 31.

Definition add (a b : Z) : Z := wrap (a + b).
Definition mul (a b : Z) : Z := wrap (a * b).

(** Conversion of an [int] argument to a [uint32_t] parameter. *)
Definition to_uint32 (z : Z) : Z := z mod 2 ^ 32.

Definition in_range (z : Z) : Prop := kMinInt <= z <= kMaxInt.
End Int.

(** ** Strings *)

(** A [String] is an immutable sequence of 16-bit code units. *)
Definition uc16 : Type := Z.
Definition String : Type := list uc16.

Definition empty_string : String := [].

Definition String_length (s : String) : Z := Z.of_nat (List.length s).

(** [Factory::NewStringFromAsciiChecked]. *)
Definition NewStringFromAsciiChecked (s : string) : String :=
  List.map (fun c => Z.of_N (N_of_ascii c)) (list_ascii_of_string s).

(** Modelled from the spec: [Factory::NewSubString(str, begin, end)], which
    is not part of regexp-utils.cc; the substring of [str] from [begin] up
    to [end], that is the code units at the positions [begin <= p < end]. *)
Definition NewSubString (str : String) (begin end_ : Z) : String :=
  firstn (Z.to_nat (end_ - begin)) (skipn (Z.to_nat begin) str).

(** *** Reads of code units

    [String::Get(index)] asserts [0 <= index < length()].  A computation
    that reads a string carries the positions it has read, in order, and
    its result; the result is [None] once a read was out of bounds. *)
Record Reads (A : Type) : Type := mkReads {
  accesses : list Z;
  result : option A
}.
Arguments mkReads {A} _ _.
Arguments accesses {A} _.
Arguments result {A} _.

Definition reads_ret {A} (a : A) : Reads A := mkReads [] (Some a).

Definition reads_bind {A B} (m : Reads A) (k : A -> Reads B) : Reads B :=
  match result m with
  | Some a => mkReads (accesses m ++ accesses (k a)) (result (k a))
  | None => mkReads (accesses m) None
  end.

Declare Scope reads_scope.
Delimit Scope reads_scope with reads.
Notation "x <- m ;; k" := (reads_bind m (fun x => k))
  (at level 61, m at next level, right associativity) : reads_scope.

Definition String_Get (s : String) (index : Z) : Reads uc16 :=
  mkReads [index]
    (if (0 <=? index) && (index <? String_length s)
     then nth_error s (Z.to_nat index) else None).

(** ** AdvanceStringIndex ( S, index, unicode ) *)

Definition AdvanceStringIndex (string : String) (index : Z) (unicode : bool)
  : Reads Z :=
  let increment := 1 in
  (if unicode && (index <? String_length string) then
     first <- String_Get string index ;;
     if (first >=? 0xD800) && (first <=? 0xDBFF)
        && (String_length string >? Int.add index 1) then
       second <- String_Get string (Int.add index 1) ;;
       if (second >=? 0xDC00) && (second <=? 0xDFFF)
       then reads_ret 2
       else reads_ret increment
     else reads_ret increment
   else reads_ret increment)%reads.

(** The code unit stored at a position of a string, if any. *)
Definition unit_at (s : String) (p : Z) : option uc16 :=
  if 0 <=? p then nth_error s (Z.to_nat p) else None.

(** A leading surrogate at [index] directly followed by a trailing one. *)
Definition surrogate_pair_at (s : String) (index : Z) : Prop :=
  exists first second,
    unit_at s index = Some first /\ unit_at s (index + 1) = Some second /\
    0xD800 <= first <= 0xDBFF /\ 0xDC00 <= second <= 0xDFFF.

(** ** Values *)

(** A [JSReceiver] is named by its address in the heap. *)
Definition JSReceiver : Type := Z.

(** Property keys: strings and symbols. *)
Inductive Name : Type :=
| NameString (s : String)
| NameSymbol (description : String).

Definition lastIndex_string : Name :=
  NameString (NewStringFromAsciiChecked "lastIndex").
Definition match_symbol : Name :=
  NameSymbol (NewStringFromAsciiChecked "Symbol.match").

(** [Object]: the tagged values a [Handle<Object>] can hold.  A [Smi] carries
    an [int] payload (the 64-bit layout, in which every [int] is a valid
    Smi); every other number is a [HeapNumber] holding a double. *)
Inductive Object : Type :=
| Undefined
| Null
| Boolean (b : bool)
| Smi (value : Z)
| HeapNumber (value : spec_float)
| Str (s : String)
| Receiver (recv : JSReceiver).

Definition IsUndefined (o : Object) : bool :=
  match o with Undefined => true | _ => false end.
Definition IsNull (o : Object) : bool :=
  match o with Null => true | _ => false end.
Definition IsJSReceiver (o : Object) : bool :=
  match o with Receiver _ => true | _ => false end.

(** [Handle<Smi>::cast(obj)->value()] and [Handle<String>::cast(obj)]: the
    casts assert the dynamic type of their argument. *)
Definition Smi_value (obj : Object) : option Z :=
  match obj with Smi value => Some value | _ => None end.
Definition String_cast (obj : Object) : option String :=
  match obj with Str s => Some s | _ => None end.

(** *** Maps *)

Inductive InstanceType : Type :=
| JS_OBJECT_TYPE
| JS_FUNCTION_TYPE
| JS_REGEXP_TYPE.

(** The hidden class of a receiver.  Two maps are the same map when they
    are the same heap cell. *)
Record Map : Type := mkMap {
  map_address : Z;
  instance_type : InstanceType;
  is_callable : bool
}.

Definition Map_eqb (m1 m2 : Map) : bool := map_address m1 =? map_address m2.

Definition InstanceType_eqb (a b : InstanceType) : bool :=
  match a, b with
  | JS_OBJECT_TYPE, JS_OBJECT_TYPE
  | JS_FUNCTION_TYPE, JS_FUNCTION_TYPE
  | JS_REGEXP_TYPE, JS_REGEXP_TYPE => true
  | _, _ => false
  end.

(** *** Exceptions and results *)

Inductive MessageTemplate : Type :=
| kInvalidRegExpExecResult
| kIncompatibleMethodReceiver
| kStrictReadOnlyProperty
| kObjectNotExtensible
| kNoSetterInCallback
| kCalledNonCallable.

(** A pending exception: a [TypeError] built from a message template and
    its arguments, or whatever value user code threw. *)
Inductive Error : Type :=
| NewTypeError (template : MessageTemplate) (args : list Object)
| Thrown (value : Object).

Inductive LanguageMode : Type := SLOPPY | STRICT.

(** What a [MaybeHandle<T>] or [Maybe<T>] holds on return: a value, or
    nothing with an exception pending.  [CheckFailed] is the failure of an
    assertion on a cast or a string read: the code has no defined result. *)
Inductive Outcome (A : Type) : Type :=
| Ok (a : A)
| Exception (e : Error)
| CheckFailed.
Arguments Ok {A} _.
Arguments Exception {A} _.
Arguments CheckFailed {A}.

(** Computations over the isolate: state passing with exceptions. *)
Definition M (S A : Type) : Type := S -> S * Outcome A.

Definition ret {S A} (a : A) : M S A := fun s => (s, Ok a).
Definition throw {S A} (e : Error) : M S A := fun s => (s, Exception e).
Definition bind {S A B} (m : M S A) (k : A -> M S B) : M S B :=
  fun s =>
    match m s with
    | (s', Ok a) => k a s'
    | (s', Exception e) => (s', Exception e)
    | (s', CheckFailed) => (s', CheckFailed)
    end.
Definition gets {S A} (f : S -> A) : M S A := fun s => (s, Ok (f s)).
Definition check {S A} (o : option A) : M S A :=
  fun s => (s, match o with Some a => Ok a | None => CheckFailed end).

Declare Scope isolate_scope.
Delimit Scope isolate_scope with M.
Notation "x <- m ;; k" := (bind m (fun x => k))
  (at level 61, m at next level, right associativity) : isolate_scope.

(** ** The host *)

(** The collaborators [RegExpUtils] calls: the heap behind an [Isolate],
    generic property access, callable invocation, length and boolean
    coercion, and the [lastIndex] field of a [JSRegExp]. *)
Class Host : Type := {
  Isolate : Type;
  (** [recv->map()] *)
  map : Isolate -> JSReceiver -> Map;
  (** [isolate->regexp_function()->initial_map()] *)
  regexp_initial_map : Isolate -> Map;
  (** [isolate->regexp_exec_function()] *)
  regexp_exec_function : Isolate -> Object;
  (** [Object::GetProperty(object, name)] *)
  GetProperty : Object -> Name -> M Isolate Object;
  (** [Object::SetProperty(object, name, value, language_mode)] *)
  SetProperty : Object -> Name -> Object -> LanguageMode -> M Isolate Object;
  (** [Execution::Call(isolate, callable, receiver, argc, argv)] *)
  Call : Object -> Object -> list Object -> M Isolate Object;
  (** [Object::ToLength(isolate, input)] *)
  ToLength : Object -> M Isolate Object;
  (** [object->BooleanValue()] *)
  BooleanValue : Isolate -> Object -> bool;
  (** [JSRegExp::cast( *recv )->LastIndex()] *)
  JSRegExp_LastIndex : Isolate -> JSReceiver -> Object;
  (** [JSRegExp::cast( *recv )->SetLastIndex(value)] *)
  JSRegExp_SetLastIndex : Isolate -> JSReceiver -> Z -> Isolate
}.

Section RegExpUtils.
Context {host : Host}.
Local Open Scope isolate_scope.

Definition IsCallable (isolate : Isolate) (o : Object) : bool :=
  match o with
  | Receiver recv => is_callable (map isolate recv)
  | _ => false
  end.

Definition IsJSRegExp (isolate : Isolate) (o : Object) : bool :=
  match o with
  | Receiver recv =>
      InstanceType_eqb (instance_type (map isolate recv)) JS_REGEXP_TYPE
  | _ => false
  end.

Definition HasInitialRegExpMap (isolate : Isolate) (recv : JSReceiver)
  : bool :=
  Map_eqb (map isolate recv) (regexp_initial_map isolate).

Definition SetLastIndex (recv : JSReceiver) (value : Z)
  : M Isolate Object :=
  fun isolate =>
    if HasInitialRegExpMap isolate recv then
      (JSRegExp_SetLastIndex isolate recv value, Ok (Receiver recv))
    else
      SetProperty (Receiver recv) lastIndex_string (Smi value) STRICT
        isolate.

Definition GetLastIndex (recv : JSReceiver) : M Isolate Object :=
  fun isolate =>
    if HasInitialRegExpMap isolate recv then
      (isolate, Ok (JSRegExp_LastIndex isolate recv))
    else
      GetProperty (Receiver recv) lastIndex_string isolate.

(** RegExpExec ( R, S ), with the [exec] method the caller may have
    fetched already ([Undefined] when it has not). *)
Definition RegExpExec (regexp : JSReceiver) (string : String)
  (exec : Object) : M Isolate Object :=
  exec <- (if IsUndefined exec
           then GetProperty (Receiver regexp)
                  (NameString (NewStringFromAsciiChecked "exec"))
           else ret exec) ;;
  callable <- gets (fun isolate => IsCallable isolate exec) ;;
  if callable then
    let argv := [Str string] in
    result <- Call exec (Receiver regexp) argv ;;
    if negb (IsJSReceiver result) && negb (IsNull result) then
      throw (NewTypeError kInvalidRegExpExecResult [])
    else ret result
  else
    is_regexp <- gets (fun isolate => IsJSRegExp isolate (Receiver regexp)) ;;
    if negb is_regexp then
      throw (NewTypeError kIncompatibleMethodReceiver
               [Str (NewStringFromAsciiChecked "RegExp.prototype.exec");
                Receiver regexp])
    else
      regexp_exec <- gets regexp_exec_function ;;
      let argv := [Str string] in
      Call regexp_exec (Receiver regexp) argv.

Definition IsRegExp (object : Object) : M Isolate bool :=
  match object with
  | Receiver receiver =>
      fast <- gets (fun isolate =>
                      Map_eqb (regexp_initial_map isolate)
                        (map isolate receiver)) ;;
      if fast then ret true
      else
        match_ <- GetProperty (Receiver receiver) match_symbol ;;
        if negb (IsUndefined match_)
        then gets (fun isolate => BooleanValue isolate match_)
        else gets (fun isolate => IsJSRegExp isolate object)
  | _ => ret false
  end.

Definition SetAdvancedStringIndex (regexp : JSReceiver) (string : String)
  (unicode : bool) : M Isolate Object :=
  last_index_obj <- GetProperty (Receiver regexp) lastIndex_string ;;
  last_index_obj <- ToLength last_index_obj ;;
  last_index <- check (Smi_value last_index_obj) ;;
  increment <- check (result (AdvanceStringIndex string last_index unicode)) ;;
  let new_last_index := Int.add last_index increment in
  SetLastIndex regexp new_last_index.

(** The value [RegExpExec] dispatches on: the [exec] it was given, or the
    receiver's [exec] property when it was given none. *)
Definition resolved_exec (regexp : JSReceiver) (exec : Object)
  : M Isolate Object :=
  if IsUndefined exec
  then GetProperty (Receiver regexp)
         (NameString (NewStringFromAsciiChecked "exec"))
  else ret exec.
End RegExpUtils.

(** ** The last-match info *)

(** The last-match info is a [JSObject] read through its elements; reading
    an element of it runs no user code, so the object is modelled by its
    element list.  [JSReceiver::GetElement] takes a [uint32_t] index and
    yields [Undefined] for an element that is not there. *)
Definition LastMatchInfo : Type := list Object.

Definition GetElement (match_info : LastMatchInfo) (index : Z) : Object :=
  let index := Int.to_uint32 index in
  if index <? Z.of_nat (List.length match_info)
  then nth (Z.to_nat index) match_info Undefined
  else Undefined.

(** The layout constants [RegExpImpl::kLastCaptureCount], [kLastSubject],
    [kLastInput] and [kFirstCapture] of src/regexp/jsregexp.h. *)
Class RegExpImpl : Type := {
  kLastCaptureCount : Z;
  kLastSubject : Z;
  kLastInput : Z;
  kFirstCapture : Z
}.

Definition option_bind {A B} (o : option A) (k : A -> option B) : option B :=
  match o with Some a => k a | None => None end.

Declare Scope option_scope.
Delimit Scope option_scope with opt.
Notation "x <- m ;; k" := (option_bind m (fun x => k))
  (at level 61, m at next level, right associativity) : option_scope.

Section LastMatch.
Context {layout : RegExpImpl}.
Local Open Scope option_scope.

Definition GetLastMatchField (match_info : LastMatchInfo) (index : Z)
  : Object :=
  GetElement match_info index.

Definition GetLastMatchNumberOfCaptures (match_info : LastMatchInfo)
  : option Z :=
  let obj := GetLastMatchField match_info kLastCaptureCount in
  Smi_value obj.

Definition GetLastMatchSubject (match_info : LastMatchInfo)
  : option String :=
  String_cast (GetLastMatchField match_info kLastSubject).

Definition GetLastMatchInput (match_info : LastMatchInfo) : Object :=
  GetLastMatchField match_info kLastInput.

Definition GetLastMatchCapture (match_info : LastMatchInfo) (i : Z)
  : option Z :=
  let obj := GetLastMatchField match_info (Int.add kFirstCapture i) in
  Smi_value obj.

(** The string returned together with the flag stored through [ok]. *)
Definition GenericCaptureGetter (match_info : LastMatchInfo) (capture : Z)
  : option (String * bool) :=
  let index := Int.mul capture 2 in
  count <- GetLastMatchNumberOfCaptures match_info ;;
  if index >=? count then Some (empty_string, false)
  else
    match_start <- GetLastMatchCapture match_info index ;;
    match_end <- GetLastMatchCapture match_info (Int.add index 1) ;;
    if (match_start =? -1) || (match_end =? -1)
    then Some (empty_string, false)
    else
      last_subject <- GetLastMatchSubject match_info ;;
      Some (NewSubString last_subject match_start match_end, true).

(** *** The specification's view of the buffer *)

(** The match info as the specification describes it: a subject, an
    input, a capture count and the sequence of capture offsets. *)
Record MatchInfo : Type := mkMatchInfo {
  subject : String;
  input : Object;
  captureCount : Z;
  captures : list Z
}.

(** Offset [i] of the capture sequence. *)
Definition capture_at (m : MatchInfo) (i : Z) : Z :=
  nth (Z.to_nat i) (captures m) (-1).

(** The invariants of the data model that the getter relies on: the
    count is even and equals the number of offsets, and the buffer fits
    the index type. *)
Definition well_formed (m : MatchInfo) : Prop :=
  Z.even (captureCount m) = true /\
  0 <= captureCount m /\
  Z.of_nat (List.length (captures m)) = captureCount m /\
  0 <= kFirstCapture /\
  kFirstCapture + captureCount m <= Int.kMaxInt.

(** The element list [match_info] holds the match info [m]. *)
Definition represents (match_info : LastMatchInfo) (m : MatchInfo) : Prop :=
  GetElement match_info kLastCaptureCount = Smi (captureCount m) /\
  GetElement match_info kLastSubject = Str (subject m) /\
  GetElement match_info kLastInput = input m /\
  forall i, 0 <= i < captureCount m ->
    GetElement match_info (kFirstCapture + i) = Smi (capture_at m i).

(** [CaptureSubstring(groupIndex)] as the specification gives it. *)
Definition CaptureSubstring (m : MatchInfo) (groupIndex : Z)
  : String * bool :=
  let index := groupIndex * 2 in
  if index >=? captureCount m then (empty_string, false)
  else
    let start := capture_at m index in
    let end_ := capture_at m (index + 1) in
    if (start =? -1) || (end_ =? -1) then (empty_string, false)
    else (NewSubString (subject m) start end_, true).
End LastMatch.

(** The values the four constants have in V8's jsregexp.h. *)
Definition jsregexp_layout : RegExpImpl := {|
  kLastCaptureCount := 0;
  kLastSubject := 1;
  kLastInput := 2;
  kFirstCapture := 3
|}.

(** The element list that holds a match info under that layout: the
    count, the subject, the input, then the offsets. *)
Definition elements_of (m : MatchInfo) : LastMatchInfo :=
  Smi (captureCount m) :: Str (subject m) :: input m
    :: List.map Smi (captures m).

(** ** A reference host *)

(** A small host on which the functions above run: a heap of objects with
    own properties (data properties with a writable flag, or getters), an
    extensible flag, and for functions the code they run.  There are no
    prototypes. *)
Module Reference.
Local Open Scope isolate_scope.

Definition kMaxSafeInteger : Z := 2 ^ 53 - 1.

(** What a function does when it is called. *)
Inductive Code : Type :=
| ReturnValue (value : Object)
| ThrowValue (value : Object)
| StoreLastIndex (value : Object) (returned : Object)
| RegExpPrototypeExec.

Inductive Property : Type :=
| Data (value : Object) (writable : bool)
| Getter (code : Code).

Record HeapObject : Type := mkHeapObject {
  object_map : Map;
  properties : list (Name * Property);
  extensible : bool;
  code : option Code
}.

Definition Heap : Type := list (JSReceiver * HeapObject).

Definition plain_object_map : Map := mkMap 1 JS_OBJECT_TYPE false.
Definition function_map : Map := mkMap 2 JS_FUNCTION_TYPE true.
Definition initial_regexp_map : Map := mkMap 3 JS_REGEXP_TYPE false.
(** The map of a regexp that was given an own property. *)
Definition modified_regexp_map : Map := mkMap 4 JS_REGEXP_TYPE false.

(** The address of the built-in [RegExp.prototype.exec]. *)
Definition regexp_exec_address : JSReceiver := 1.

Fixpoint String_eqb (a b : String) : bool :=
  match a, b with
  | [], [] => true
  | x :: a', y :: b' => (x =? y) && String_eqb a' b'
  | _, _ => false
  end.

Definition Name_eqb (a b : Name) : bool :=
  match a, b with
  | NameString s, NameString t => String_eqb s t
  | NameSymbol s, NameSymbol t => String_eqb s t
  | _, _ => false
  end.

Fixpoint lookup (heap : Heap) (recv : JSReceiver) : option HeapObject :=
  match heap with
  | [] => None
  | (a, o) :: rest => if a =? recv then Some o else lookup rest recv
  end.

Fixpoint store (heap : Heap) (recv : JSReceiver) (o : HeapObject) : Heap :=
  match heap with
  | [] => [(recv, o)]
  | (a, o') :: rest =>
      if a =? recv then (a, o) :: rest else (a, o') :: store rest recv o
  end.

Fixpoint find_property (props : list (Name * Property)) (name : Name)
  : option Property :=
  match props with
  | [] => None
  | (n, p) :: rest => if Name_eqb n name then Some p else find_property rest name
  end.

Fixpoint put_property (props : list (Name * Property)) (name : Name)
  (p : Property) : list (Name * Property) :=
  match props with
  | [] => [(name, p)]
  | (n, q) :: rest =>
      if Name_eqb n name then (n, p) :: rest
      else (n, q) :: put_property rest name p
  end.

Definition with_property (o : HeapObject) (name : Name) (p : Property)
  : HeapObject :=
  mkHeapObject (object_map o) (put_property (properties o) name p)
    (extensible o) (code o).

Definition map_of (heap : Heap) (recv : JSReceiver) : Map :=
  match lookup heap recv with
  | Some o => object_map o
  | None => plain_object_map
  end.

(** Modelled from the spec: the generic property write of the host, which
    is not part of regexp-utils.cc.  A write to a property that is not
    writable, or of a new property to an object that is not extensible,
    throws in strict mode and is dropped in sloppy mode. *)
Definition set_property (object : Object) (name : Name) (value : Object)
  (language_mode : LanguageMode) : M Heap Object :=
  fun heap =>
    let refuse (template : MessageTemplate) :=
      match language_mode with
      | STRICT => (heap, Exception (NewTypeError template [object]))
      | SLOPPY => (heap, Ok value)
      end in
    match object with
    | Receiver recv =>
        match lookup heap recv with
        | Some o =>
            match find_property (properties o) name with
            | Some (Data _ true) =>
                (store heap recv (with_property o name (Data value true)),
                 Ok value)
            | Some (Data _ false) => refuse kStrictReadOnlyProperty
            | Some (Getter _) => refuse kNoSetterInCallback
            | None =>
                if extensible o then
                  (store heap recv (with_property o name (Data value true)),
                   Ok value)
                else refuse kObjectNotExtensible
            end
        | None => (heap, Ok value)
        end
    | _ => (heap, Ok value)
    end.

(** Running the code of a function with [this] as its receiver.  The
    reference engine behind [RegExpPrototypeExec] finds no match. *)
Definition run (c : Code) (this : Object) : M Heap Object :=
  match c with
  | ReturnValue value => ret value
  | ThrowValue value => throw (Thrown value)
  | StoreLastIndex value returned =>
      _ <- set_property this lastIndex_string value SLOPPY ;;
      ret returned
  | RegExpPrototypeExec => ret Null
  end.

Definition get_property (object : Object) (name : Name) : M Heap Object :=
  fun heap =>
    match object with
    | Receiver recv =>
        match lookup heap recv with
        | Some o =>
            match find_property (properties o) name with
            | Some (Data value _) => (heap, Ok value)
            | Some (Getter c) => run c object heap
            | None => (heap, Ok Undefined)
            end
        | None => (heap, Ok Undefined)
        end
    | _ => (heap, Ok Undefined)
    end.

Definition call (callable receiver : Object) (argv : list Object)
  : M Heap Object :=
  fun heap =>
    match callable with
    | Receiver f =>
        match lookup heap f with
        | Some (mkHeapObject _ _ _ (Some c)) => run c receiver heap
        | _ => (heap, Exception (NewTypeError kCalledNonCallable [callable]))
        end
    | _ => (heap, Exception (NewTypeError kCalledNonCallable [callable]))
    end.

(** [Factory::NewNumber] on an integer: a Smi when the value fits one, a
    heap number otherwise. *)
Definition NewNumber (z : Z) : Object :=
  if (Int.kMinInt <=? z) && (z <=? Int.kMaxInt) then Smi z
  else HeapNumber (binary_normalize 53 1024 z 0 false).

(** The integer part of a non-negative double, capped at [2^53 - 1]. *)
Definition double_to_length (d : spec_float) : Z :=
  match d with
  | S754_zero _ => 0
  | S754_nan => 0
  | S754_infinity negative => if negative then 0 else kMaxSafeInteger
  | S754_finite negative m e =>
      if negative then 0
      else Z.min kMaxSafeInteger
             (if 0 <=? e then Z.pos m * 2 ^ e else Z.pos m / 2 ^ (- e))
  end.

Definition digit_value (c : uc16) : option Z :=
  if (48 <=? c) && (c <=? 57) then Some (c - 48) else None.

Fixpoint decimal (s : String) (acc : Z) : option Z :=
  match s with
  | [] => Some acc
  | c :: rest =>
      match digit_value c with
      | Some d => decimal rest (10 * acc + d)
      | None => None
      end
  end.

(** Modelled from the spec: [Object::ToLength], which is not part of
    regexp-utils.cc. The result is clamped to [[0, 2^53-1]]; a value that
    is not numeric, and NaN, give 0. *)
Definition to_length (input : Object) : Z :=
  match input with
  | Smi value => Z.max 0 (Z.min value kMaxSafeInteger)
  | HeapNumber d => double_to_length d
  | Boolean b => if b then 1 else 0
  | Str s =>
      match decimal s 0 with
      | Some value => Z.min value kMaxSafeInteger
      | None => 0
      end
  | Undefined | Null | Receiver _ => 0
  end.

Definition boolean_value (o : Object) : bool :=
  match o with
  | Undefined | Null => false
  | Boolean b => b
  | Smi value => negb (value =? 0)
  | HeapNumber (S754_zero _) | HeapNumber S754_nan => false
  | HeapNumber _ => true
  | Str s => negb (String_length s =? 0)
  | Receiver _ => true
  end.

(** The [lastIndex] field of a regexp is its own [lastIndex] property;
    the field is written whatever the attributes of the property. *)
Definition last_index (heap : Heap) (recv : JSReceiver) : Object :=
  match lookup heap recv with
  | Some o =>
      match find_property (properties o) lastIndex_string with
      | Some (Data value _) => value
      | _ => Smi 0
      end
  | None => Smi 0
  end.

Definition set_last_index (heap : Heap) (recv : JSReceiver) (value : Z)
  : Heap :=
  match lookup heap recv with
  | Some o =>
      store heap recv (with_property o lastIndex_string (Data (Smi value) true))
  | None => heap
  end.

Definition host : Host := {|
  Isolate := Heap;
  map := map_of;
  regexp_initial_map := fun _ => initial_regexp_map;
  regexp_exec_function := fun _ => Receiver regexp_exec_address;
  GetProperty := get_property;
  SetProperty := set_property;
  Call := call;
  ToLength := fun input => ret (NewNumber (to_length input));
  BooleanValue := fun _ => boolean_value;
  JSRegExp_LastIndex := last_index;
  JSRegExp_SetLastIndex := set_last_index
|}.
End Reference.

(** ** Sample data *)

Module Examples.
Import Reference.

(** The subject ["a𝌆b"]: a surrogate pair at code units 1 and 2. *)
Definition a_pair_b : String := [0x61; 0xD834; 0xDF06; 0x62].

Definition exec_string : Name :=
  NameString (NewStringFromAsciiChecked "exec").

Definition function (c : Code) : HeapObject :=
  mkHeapObject function_map [] true (Some c).

Definition plain (props : list (Name * Property)) : HeapObject :=
  mkHeapObject plain_object_map props true None.

Definition regexp (last_index : Object) : HeapObject :=
  mkHeapObject initial_regexp_map
    [(lastIndex_string, Data last_index true)] true None.

(** A heap with the built-in [exec] at address 1, unmodified regexps at
    10 and 12, a regexp with an own non-callable [exec] at 11, plain
    objects at 20 to 25 and functions from 30 on. *)
Definition heap : Heap :=
  [ (1, function RegExpPrototypeExec);
    (10, regexp (Smi 0));
    (11, mkHeapObject modified_regexp_map
           [(lastIndex_string, Data (Smi 3) true);
            (exec_string, Data (Smi 5) true)] true None);
    (12, regexp (Smi 1));
    (20, plain [(exec_string, Data (Receiver 30) true);
                (lastIndex_string, Data (Smi 1) true)]);
    (21, mkHeapObject plain_object_map
           [(lastIndex_string, Data (Smi 0) false)] false None);
    (22, plain [(lastIndex_string, Data (NewNumber (2 ^ 31)) true)]);
    (23, plain [(lastIndex_string, Data (Smi (2 ^ 31 - 1)) true)]);
    (24, plain [(exec_string, Data (Receiver 33) true);
                (match_symbol, Data (Smi 1) true)]);
    (25, plain [(exec_string, Getter (ThrowValue (Smi 13)));
                (match_symbol, Getter (ThrowValue (Smi 14)))]);
    (30, function (ReturnValue (Smi 7)));
    (31, function (ReturnValue Null));
    (32, function (ThrowValue (Smi 42)));
    (33, function (ReturnValue (Receiver 20)));
    (34, function (StoreLastIndex (Smi 9) Null)) ].

(** The last-match info of the scenario: two groups, the second one
    unmatched, over the subject ["ab"]. *)
Definition scenario : MatchInfo :=
  mkMatchInfo [0x61; 0x62] (Str [0x61; 0x62]) 4 [0; 1; -1; -1].

Definition scenario_elements : LastMatchInfo :=
  [Smi 4; Str [0x61; 0x62]; Str [0x61; 0x62];
   Smi 0; Smi 1; Smi (-1); Smi (-1)].
End Examples.

(** ** The strict-failure contract of the property write *)

(** Modelled from the spec: the contract of the host's generic property
    write ([Object::SetProperty]), which is not part of regexp-utils.cc.
    A write to a target that is not writable or not extensible fails in
    strict mode, leaving the target as it is, and is silently dropped in
    sloppy mode.  [read_only] tells that the receiver has the property and
    that it is not writable, [not_extensible_for] that the receiver lacks
    the property and is not extensible. *)
Class StrictWrites {host : Host} : Type := {
  read_only : Isolate -> JSReceiver -> Name -> bool;
  not_extensible_for : Isolate -> JSReceiver -> Name -> bool;
  strict_write_read_only :
    forall isolate recv name value,
      read_only isolate recv name = true ->
      exists e,
        SetProperty (Receiver recv) name value STRICT isolate
          = (isolate, Exception e);
  strict_write_not_extensible :
    forall isolate recv name value,
      not_extensible_for isolate recv name = true ->
      exists e,
        SetProperty (Receiver recv) name value STRICT isolate
          = (isolate, Exception e);
  sloppy_write_dropped :
    forall isolate recv name value,
      read_only isolate recv name = true \/
      not_extensible_for isolate recv name = true ->
      SetProperty (Receiver recv) name value SLOPPY isolate
        = (isolate, Ok value)
}.

(** What the contract observes on the reference host. *)
Module ReferenceWrites.
Import Reference.

Definition read_only (heap : Heap) (recv : JSReceiver) (name : Name) : bool :=
  match lookup heap recv with
  | Some o =>
      match find_property (properties o) name with
      | Some (Data _ false) => true
      | _ => false
      end
  | None => false
  end.

Definition not_extensible_for (heap : Heap) (recv : JSReceiver) (name : Name)
  : bool :=
  match lookup heap recv with
  | Some o =>
      match find_property (properties o) name with
      | None => negb (extensible o)
      | Some _ => false
      end
  | None => false
  end.

(** The sample heap with, at 29, an object that is not extensible and has
    no [lastIndex]. *)
Definition heap : Heap :=
  Examples.heap ++ [(29, mkHeapObject plain_object_map [] false None)].
End ReferenceWrites.

(** ** Writing the last-match info *)

(** A sloppy element store on the last-match info, an extensible array:
    the element at [n] is replaced, and a store past the end extends the
    list, the positions in between being holes, which read as
    [Undefined]. *)
Fixpoint store_element (n : nat) (elements : LastMatchInfo) (value : Object)
  : LastMatchInfo :=
  match n, elements with
  | O, [] => [value]
  | O, _ :: rest => value :: rest
  | S n', [] => Undefined :: store_element n' [] value
  | S n', x :: rest => x :: store_element n' rest value
  end.

(** [JSReceiver::SetElement(isolate, match_info, index, value, SLOPPY)],
    with its [uint32_t] index. *)
Definition SetElement (match_info : LastMatchInfo) (index : Z)
  (value : Object) : LastMatchInfo :=
  store_element (Z.to_nat (Int.to_uint32 index)) match_info value.

Definition SetLastMatchField (match_info : LastMatchInfo) (index : Z)
  (value : Object) : LastMatchInfo :=
  SetElement match_info index value.

(** ** More sample data *)

Module MoreExamples.
Import Reference.

(** The sample heap with three more objects: at 26 a plain object whose
    [lastIndex] getter throws, at 27 a regexp whose match symbol is
    [false], at 28 a plain object whose [lastIndex] is an object. *)
Definition heap : Heap :=
  Examples.heap ++
  [ (26, Examples.plain [(lastIndex_string, Getter (ThrowValue (Smi 15)))]);
    (27, mkHeapObject modified_regexp_map
           [(match_symbol, Data (Boolean false) true)] true None);
    (28, Examples.plain [(lastIndex_string, Data (Receiver 20) true)]) ].

(** What the getter returns for the unmatched group 1 of the scenario. *)
Definition GenericCaptureGetter_scenario_unmatched : String * bool :=
  match GenericCaptureGetter (layout := jsregexp_layout)
          Examples.scenario_elements 1 with
  | Some r => r
  | None => ([0x3F], true)
  end.

(** The reference host, except that the length coercion of an object
    throws, as it does when the object's [valueOf] throws. *)
Definition throwing_coercion_host : Host := {|
  Isolate := Heap;
  map := map_of;
  regexp_initial_map := fun _ => initial_regexp_map;
  regexp_exec_function := fun _ => Receiver regexp_exec_address;
  GetProperty := get_property;
  SetProperty := set_property;
  Call := call;
  ToLength := fun input =>
    match input with
    | Receiver _ => throw (Thrown (Smi 16))
    | _ => ret (NewNumber (to_length input))
    end;
  BooleanValue := fun _ => boolean_value;
  JSRegExp_LastIndex := last_index;
  JSRegExp_SetLastIndex := set_last_index
|}.
End MoreExamples.

(** * Properties *)

(** ** Machine integers *)

Lemma Int_wrap_in_range (z : Z) : Int.in_range z -> Int.wrap z = z.
Proof.
  unfold Int.in_range, Int.wrap, Int.kMinInt, Int.kMaxInt. intros Hz.
  rewrite Z.mod_small; lia.
Qed.

(** Closes a goal on the bounds of [int] by linear arithmetic. *)
Ltac int_bounds := unfold Int.in_range, Int.kMinInt, Int.kMaxInt in *; lia.

Lemma Int_add_exact (a b : Z) :
  Int.kMinInt <= a + b <= Int.kMaxInt -> Int.add a b = a + b.
Proof. intros H. unfold Int.add. now apply Int_wrap_in_range. Qed.

Lemma Int_mul_exact (a b : Z) :
  Int.kMinInt <= a * b <= Int.kMaxInt -> Int.mul a b = a * b.
Proof. intros H. unfold Int.mul. now apply Int_wrap_in_range. Qed.

Lemma Int_to_uint32_nonneg (z : Z) :
  0 <= z <= Int.kMaxInt -> Int.to_uint32 z = z.
Proof.
  unfold Int.to_uint32, Int.kMaxInt. intros H. rewrite Z.mod_small; lia.
Qed.

(** ** AdvanceStringIndex *)

Lemma unit_at_in_bounds (s : String) (p : Z) :
  0 <= p < String_length s -> exists c, unit_at s p = Some c.
Proof.
  unfold unit_at, String_length. intros [H0 H1].
  destruct (Z.leb_spec 0 p); [|lia].
  destruct (nth_error s (Z.to_nat p)) eqn:E; [eauto|].
  apply nth_error_None in E. lia.
Qed.

Lemma unit_at_Some_bounds (s : String) (p : Z) (c : uc16) :
  unit_at s p = Some c -> 0 <= p < String_length s.
Proof.
  unfold unit_at, String_length.
  destruct (Z.leb_spec 0 p); [|discriminate].
  intros E. assert (Hn : nth_error s (Z.to_nat p) <> None) by congruence.
  apply nth_error_Some in Hn. lia.
Qed.

Lemma String_Get_in_bounds (s : String) (p : Z) :
  0 <= p < String_length s ->
  String_Get s p = mkReads [p] (unit_at s p).
Proof.
  intros [H0 H1]. unfold String_Get, unit_at.
  destruct (Z.leb_spec 0 p); [|lia].
  destruct (Z.ltb_spec p (String_length s)); [reflexivity|lia].
Qed.

(** The unfolding of [AdvanceStringIndex] on a non-negative index: what it
    reads and what it returns, case by case. *)
Lemma AdvanceStringIndex_cases (string : String) (index : Z) (unicode : bool) :
  0 <= index -> String_length string <= Int.kMaxInt ->
  (unicode = false \/ String_length string <= index) /\
    AdvanceStringIndex string index unicode = mkReads [] (Some 1)
  \/
  (exists first,
      unicode = true /\ index < String_length string /\
      unit_at string index = Some first /\
      (~ 0xD800 <= first <= 0xDBFF \/ String_length string <= index + 1) /\
      AdvanceStringIndex string index unicode = mkReads [index] (Some 1))
  \/
  (exists first second,
      unicode = true /\ index + 1 < String_length string /\
      unit_at string index = Some first /\
      unit_at string (index + 1) = Some second /\
      0xD800 <= first <= 0xDBFF /\
      AdvanceStringIndex string index unicode =
        mkReads [index; index + 1]
          (Some (if (second >=? 0xDC00) && (second <=? 0xDFFF) then 2 else 1))).
Proof.
  intros Hidx Hlen. unfold AdvanceStringIndex.
  destruct unicode; simpl andb; [|left; split; [now left|reflexivity]].
  destruct (Z.ltb_spec index (String_length string)) as [Hlt|Hge];
    [|left; split; [now right|reflexivity]].
  right.
  destruct (unit_at_in_bounds string index ltac:(lia)) as [first Hfirst].
  rewrite String_Get_in_bounds by lia.
  rewrite Int_add_exact by int_bounds.
  unfold reads_bind. cbn [result accesses]. rewrite Hfirst. cbv beta iota.
  destruct (Z.geb_spec first 0xD800) as [Hlo|Hlo]; simpl andb;
    [|left; exists first; repeat split; auto; left; lia].
  destruct (Z.leb_spec first 0xDBFF) as [Hhi|Hhi]; simpl andb;
    [|left; exists first; repeat split; auto; left; lia].
  destruct (Z.gtb_spec (String_length string) (index + 1)) as [Hnext|Hnext];
    [|left; exists first; repeat split; auto; right; lia].
  right.
  destruct (unit_at_in_bounds string (index + 1) ltac:(lia)) as [second Hsecond].
  exists first, second.
  rewrite String_Get_in_bounds by lia.
  unfold reads_bind. cbn [result accesses]. rewrite Hsecond. cbv beta iota.
  repeat split; auto; try lia.
  destruct ((second >=? 0xDC00) && (second <=? 0xDFFF)); reflexivity.
Qed.

(** What AdvanceStringIndex returns on a non-negative index. *)
Lemma AdvanceStringIndex_result
  (string : String) (index : Z) (unicode : bool) :
  0 <= index -> String_length string <= Int.kMaxInt ->
  (result (AdvanceStringIndex string index unicode) = Some 1 \/
   result (AdvanceStringIndex string index unicode) = Some 2) /\
  (result (AdvanceStringIndex string index unicode) = Some 2 <->
   unicode = true /\ index < String_length string /\
   surrogate_pair_at string index).
Proof.
  intros Hidx Hlen.
  destruct (AdvanceStringIndex_cases string index unicode Hidx Hlen)
    as [[Hc E] | [(first & Hu & Hlt & Hf & Hc & E)
                 | (first & second & Hu & Hlt & Hf & Hs & Hlead & E)]];
    rewrite E; cbn [result].
  - split; [now left|]. split; [discriminate|].
    intros (Hu & Hlt & _). destruct Hc; [congruence|lia].
  - split; [now left|]. split; [discriminate|].
    intros (_ & _ & f & s & Hf' & Hs' & Hlead & _).
    rewrite Hf in Hf'. injection Hf' as <-.
    destruct Hc as [Hc|Hc]; [contradiction|].
    apply unit_at_Some_bounds in Hs'. lia.
  - destruct (Z.geb_spec second 0xDC00) as [Hlo|Hlo]; simpl andb.
    + destruct (Z.leb_spec second 0xDFFF) as [Hhi|Hhi].
      * split; [now right|]. split; [|reflexivity].
        intros _. repeat split; auto; try lia.
        exists first, second. repeat split; auto; lia.
      * split; [now left|]. split; [discriminate|].
        intros (_ & _ & f & s & _ & Hs' & _ & Htrail).
        rewrite Hs in Hs'. injection Hs' as <-. lia.
    + split; [now left|]. split; [discriminate|].
      intros (_ & _ & f & s & _ & Hs' & _ & Htrail).
      rewrite Hs in Hs'. injection Hs' as <-. lia.
Qed.

(** C4 (amended): for every string (of a length that fits [int]), every
    index with [0 <= index] and every unicode flag, AdvanceStringIndex
    returns 1 or 2, and it returns 2 exactly when the flag is set, the index
    is before the end of the string, the code unit at the index is a
    leading surrogate, a following code unit exists and that one is a
    trailing surrogate. *)
Theorem AdvanceStringIndex_increment
  (string : String) (index : Z) (unicode : bool) :
  0 <= index -> String_length string <= Int.kMaxInt ->
  (result (AdvanceStringIndex string index unicode) = Some 1 \/
   result (AdvanceStringIndex string index unicode) = Some 2) /\
  (result (AdvanceStringIndex string index unicode) = Some 2 <->
   unicode = true /\ index < String_length string /\
   surrogate_pair_at string index).
Proof. exact (AdvanceStringIndex_result string index unicode). Qed.

Lemma AdvanceStringIndex_increment_witness :
  (result (AdvanceStringIndex Examples.a_pair_b 1 true) = Some 1 \/
   result (AdvanceStringIndex Examples.a_pair_b 1 true) = Some 2) /\
  (result (AdvanceStringIndex Examples.a_pair_b 1 true) = Some 2 <->
   true = true /\ 1 < String_length Examples.a_pair_b /\
   surrogate_pair_at Examples.a_pair_b 1).
Proof.
  apply (AdvanceStringIndex_increment Examples.a_pair_b 1 true).
  - lia.
  - vm_compute. discriminate.
Defined.

(** C4, as stated, fails on a negative index: in unicode mode the guard
    [index < length] lets [-1] through and the read at [-1] is out of
    bounds, so no increment is returned. *)
Lemma AdvanceStringIndex_negative_index :
  ~ (result (AdvanceStringIndex [0x61] (-1) true) = Some 1 \/
     result (AdvanceStringIndex [0x61] (-1) true) = Some 2).
Proof. vm_compute. intros [H|H]; discriminate H. Qed.

(** C10: for a non-negative index, the only positions AdvanceStringIndex
    reads are [index] and [index + 1], each of them only when it is inside
    the string; no read is out of bounds and an increment is returned. *)
Theorem AdvanceStringIndex_reads_in_bounds
  (string : String) (index : Z) (unicode : bool) :
  0 <= index -> String_length string <= Int.kMaxInt ->
  result (AdvanceStringIndex string index unicode) <> None /\
  forall p, In p (accesses (AdvanceStringIndex string index unicode)) ->
    (p = index \/ p = index + 1) /\ 0 <= p < String_length string.
Proof.
  intros Hidx Hlen.
  destruct (AdvanceStringIndex_cases string index unicode Hidx Hlen)
    as [[Hc E] | [(first & Hu & Hlt & Hf & Hc & E)
                 | (first & second & Hu & Hlt & Hf & Hs & Hlead & E)]];
    rewrite E; cbn [result accesses]; (split; [discriminate|]).
  - intros p [].
  - intros p [<-|[]]. split; [now left|lia].
  - intros p [<-|[<-|[]]]; (split; [tauto|lia]).
Qed.

Lemma AdvanceStringIndex_reads_in_bounds_witness :
  result (AdvanceStringIndex Examples.a_pair_b 1 true) <> None /\
  forall p, In p (accesses (AdvanceStringIndex Examples.a_pair_b 1 true)) ->
    (p = 1 \/ p = 1 + 1) /\ 0 <= p < String_length Examples.a_pair_b.
Proof.
  apply (AdvanceStringIndex_reads_in_bounds Examples.a_pair_b 1 true).
  - lia.
  - vm_compute. discriminate.
Defined.

Example AdvanceStringIndex_scenario :
  result (AdvanceStringIndex Examples.a_pair_b 1 true) = Some 2 /\
  result (AdvanceStringIndex Examples.a_pair_b 0 true) = Some 1 /\
  result (AdvanceStringIndex Examples.a_pair_b 1 false) = Some 1 /\
  accesses (AdvanceStringIndex Examples.a_pair_b 1 true) = [1; 2] /\
  accesses (AdvanceStringIndex Examples.a_pair_b 3 true) = [3] /\
  accesses (AdvanceStringIndex Examples.a_pair_b 4 true) = [].
Proof. repeat split. Qed.

(** Without the unicode flag the increment is 1, whatever the index. *)
Lemma AdvanceStringIndex_non_unicode (string : String) (index : Z) :
  AdvanceStringIndex string index false = mkReads [] (Some 1).
Proof. reflexivity. Qed.

(** ** The capture getter *)

Section LastMatchFacts.
Context {layout : RegExpImpl}.

Lemma even_successor_below (index count : Z) :
  Z.even index = true -> Z.even count = true ->
  index < count -> index + 1 < count.
Proof.
  intros Hi Hc Hlt.
  apply Z.even_spec in Hi. apply Z.even_spec in Hc.
  destruct Hi as [a ->]. destruct Hc as [b ->]. lia.
Qed.

Lemma represents_capture (match_info : LastMatchInfo) (m : MatchInfo) (i : Z) :
  represents match_info m -> well_formed m ->
  0 <= i < captureCount m ->
  GetLastMatchCapture match_info i = Some (capture_at m i).
Proof.
  intros (_ & _ & _ & Hcap) (_ & _ & _ & Hk & Hmax) Hi.
  unfold GetLastMatchCapture, GetLastMatchField.
  rewrite Int_add_exact by int_bounds.
  now rewrite Hcap.
Qed.

(** The code computes the function the specification calls
    CaptureSubstring. *)
Lemma GenericCaptureGetter_refines_CaptureSubstring
  (match_info : LastMatchInfo) (m : MatchInfo) (capture : Z) :
  represents match_info m -> well_formed m ->
  0 <= capture -> capture * 2 <= Int.kMaxInt ->
  GenericCaptureGetter match_info capture = Some (CaptureSubstring m capture).
Proof.
  intros Hrep Hwf H0 Hmax. unfold CaptureSubstring.
  pose proof Hrep as (Hcount & Hsubject & _ & _).
  pose proof Hwf as (Heven & Hc0 & _ & Hk & Hfit).
  unfold GenericCaptureGetter.
  rewrite Int_mul_exact by int_bounds.
  unfold GetLastMatchNumberOfCaptures, GetLastMatchField.
  rewrite Hcount. cbn [Smi_value option_bind].
  destruct (Z.geb_spec (capture * 2) (captureCount m)) as [Hge|Hlt];
    [reflexivity|].
  assert (Hnext : capture * 2 + 1 < captureCount m).
  { apply even_successor_below; auto.
    rewrite Z.even_mul. apply orb_true_r. }
  rewrite Int_add_exact by int_bounds.
  rewrite (represents_capture match_info m (capture * 2)) by (auto; lia).
  rewrite (represents_capture match_info m (capture * 2 + 1)) by (auto; lia).
  cbn [option_bind].
  destruct ((capture_at m (capture * 2) =? -1)
            || (capture_at m (capture * 2 + 1) =? -1)); [reflexivity|].
  unfold GetLastMatchSubject, GetLastMatchField. rewrite Hsubject.
  reflexivity.
Qed.

(** C5 (amended): on a well-formed last-match info, for every group index
    [capture] with [0 <= capture] and [capture * 2] within [int], the
    getter returns the empty string and [false] when [capture * 2] is at
    or past the capture count or when one of the two offsets is [-1], and
    the substring of the subject between the offsets and [true]
    otherwise. *)
Theorem GenericCaptureGetter_spec
  (match_info : LastMatchInfo) (m : MatchInfo) (capture : Z) :
  represents match_info m -> well_formed m ->
  0 <= capture -> capture * 2 <= Int.kMaxInt ->
  GenericCaptureGetter match_info capture =
    Some (if capture * 2 >=? captureCount m then (empty_string, false)
          else if (capture_at m (capture * 2) =? -1)
                  || (capture_at m (capture * 2 + 1) =? -1)
               then (empty_string, false)
               else (NewSubString (subject m)
                       (capture_at m (capture * 2))
                       (capture_at m (capture * 2 + 1)), true)).
Proof. exact (GenericCaptureGetter_refines_CaptureSubstring match_info m capture). Qed.
End LastMatchFacts.

Lemma GetElement_nth (match_info : LastMatchInfo) (i : Z) :
  0 <= i < Z.of_nat (List.length match_info) -> i <= Int.kMaxInt ->
  GetElement match_info i = nth (Z.to_nat i) match_info Undefined.
Proof.
  intros Hi Hmax. unfold GetElement.
  rewrite Int_to_uint32_nonneg by lia.
  destruct (Z.ltb_spec i (Z.of_nat (List.length match_info)));
    [reflexivity|lia].
Qed.

(** Every well-formed match info is held by its element list. *)
Lemma elements_of_represents (m : MatchInfo) :
  well_formed (layout := jsregexp_layout) m ->
  represents (layout := jsregexp_layout) (elements_of m) m.
Proof.
  intros (Heven & Hcount & Hlen & _ & Hfit).
  cbn [kFirstCapture jsregexp_layout] in Hfit.
  assert (Hsize : Z.of_nat (List.length (elements_of m)) = 3 + captureCount m).
  { unfold elements_of. cbn [List.length]. rewrite length_map. lia. }
  unfold represents.
  cbn [kLastCaptureCount kLastSubject kLastInput kFirstCapture jsregexp_layout].
  split; [|split; [|split]].
  - rewrite GetElement_nth by int_bounds. reflexivity.
  - rewrite GetElement_nth by int_bounds. reflexivity.
  - rewrite GetElement_nth by int_bounds. reflexivity.
  - intros i Hi. rewrite GetElement_nth by int_bounds.
    replace (Z.to_nat (3 + i)) with (3 + Z.to_nat i)%nat by lia.
    unfold elements_of. cbn [nth Nat.add].
    rewrite (nth_indep _ Undefined (Smi (-1)))
      by (rewrite length_map; lia).
    unfold capture_at. apply map_nth.
Qed.

Lemma scenario_represented :
  represents (layout := jsregexp_layout) Examples.scenario_elements
    Examples.scenario.
Proof.
  repeat split.
  intros i Hi. cbn in Hi.
  assert (Hcases : i = 0 \/ i = 1 \/ i = 2 \/ i = 3) by lia.
  destruct Hcases as [-> | [-> | [-> | ->]]]; reflexivity.
Defined.

Lemma scenario_well_formed :
  well_formed (layout := jsregexp_layout) Examples.scenario.
Proof. repeat split; vm_compute; discriminate. Defined.

Lemma GenericCaptureGetter_spec_witness :
  GenericCaptureGetter (layout := jsregexp_layout)
    Examples.scenario_elements 0 =
  Some (if 0 * 2 >=? captureCount Examples.scenario then (empty_string, false)
        else if (capture_at Examples.scenario (0 * 2) =? -1)
                || (capture_at Examples.scenario (0 * 2 + 1) =? -1)
             then (empty_string, false)
             else (NewSubString (subject Examples.scenario)
                     (capture_at Examples.scenario (0 * 2))
                     (capture_at Examples.scenario (0 * 2 + 1)), true)).
Proof.
  apply (GenericCaptureGetter_spec (layout := jsregexp_layout)
           Examples.scenario_elements Examples.scenario 0).
  - exact scenario_represented.
  - exact scenario_well_formed.
  - lia.
  - vm_compute. discriminate.
Defined.

(** The scenario of the specification: group 0 matched, group 1 did not
    take part, group 2 does not exist. *)
Example GenericCaptureGetter_scenario :
  GenericCaptureGetter (layout := jsregexp_layout)
    Examples.scenario_elements 0 = Some ([0x61], true) /\
  GenericCaptureGetter (layout := jsregexp_layout)
    Examples.scenario_elements 1 = Some (empty_string, false) /\
  GenericCaptureGetter (layout := jsregexp_layout)
    Examples.scenario_elements 2 = Some (empty_string, false).
Proof. repeat split. Qed.

(** C5, as stated for every group index, fails where [capture * 2] leaves
    [int]: for [capture = 2^30] the product wraps to [-2^31], which is below
    the capture count 4, so the getter goes on to read an offset that is
    not there instead of returning the empty string and [false]; for a
    negative group index it reads the fields in front of the offsets. *)
Lemma GenericCaptureGetter_outside_group_range :
  (2 ^ 30 * 2 >=? captureCount Examples.scenario) = true /\
  GenericCaptureGetter (layout := jsregexp_layout)
    Examples.scenario_elements (2 ^ 30) <> Some (empty_string, false) /\
  GenericCaptureGetter (layout := jsregexp_layout)
    Examples.scenario_elements (-1) = None.
Proof. vm_compute. repeat split. discriminate. Qed.

(** ** The dispatcher *)

Section RegExpUtilsFacts.
Context {host : Host}.

Lemma Map_eqb_sym (m1 m2 : Map) : Map_eqb m1 m2 = Map_eqb m2 m1.
Proof. unfold Map_eqb. apply Z.eqb_sym. Qed.

(** [RegExpExec] after its first step: the dispatch on the resolved
    [exec]. *)
Lemma RegExpExec_dispatch
  (regexp : JSReceiver) (string : String) (exec : Object)
  (isolate isolate1 : Isolate) (exec1 : Object) :
  resolved_exec regexp exec isolate = (isolate1, Ok exec1) ->
  RegExpExec regexp string exec isolate =
    if IsCallable isolate1 exec1 then
      match Call exec1 (Receiver regexp) [Str string] isolate1 with
      | (isolate2, Ok result) =>
          if negb (IsJSReceiver result) && negb (IsNull result)
          then (isolate2, Exception (NewTypeError kInvalidRegExpExecResult []))
          else (isolate2, Ok result)
      | (isolate2, Exception e) => (isolate2, Exception e)
      | (isolate2, CheckFailed) => (isolate2, CheckFailed)
      end
    else if IsJSRegExp isolate1 (Receiver regexp) then
      Call (regexp_exec_function isolate1) (Receiver regexp) [Str string]
        isolate1
    else
      (isolate1,
       Exception
         (NewTypeError kIncompatibleMethodReceiver
            [Str (NewStringFromAsciiChecked "RegExp.prototype.exec");
             Receiver regexp])).
Proof.
  unfold resolved_exec, RegExpExec. intros Hresolved.
  unfold bind at 1. rewrite Hresolved.
  unfold bind at 1. unfold gets at 1. cbv beta iota.
  destruct (IsCallable isolate1 exec1).
  - unfold bind. destruct (Call exec1 (Receiver regexp) [Str string] isolate1)
      as [isolate2 [result | e |]]; try reflexivity.
    destruct (negb (IsJSReceiver result) && negb (IsNull result)); reflexivity.
  - unfold bind at 1. unfold gets at 1. cbv beta iota.
    destruct (IsJSRegExp isolate1 (Receiver regexp)); reflexivity.
Qed.

(** When the lookup of [exec] throws, the exception is the result. *)
Lemma RegExpExec_lookup_throws
  (regexp : JSReceiver) (string : String) (exec : Object)
  (isolate isolate1 : Isolate) (e : Error) :
  resolved_exec regexp exec isolate = (isolate1, Exception e) ->
  RegExpExec regexp string exec isolate = (isolate1, Exception e).
Proof.
  unfold resolved_exec, RegExpExec. intros Hresolved.
  unfold bind at 1. now rewrite Hresolved.
Qed.

(** C1: when the resolved [exec] is callable, a value it returns that is
    neither a JSReceiver nor null makes RegExpExec throw the
    InvalidRegExpExecResult type error; a JSReceiver or null is returned
    as it is; an exception of the call is the exception of RegExpExec. *)
Theorem RegExpExec_callable
  (regexp : JSReceiver) (string : String) (exec : Object)
  (isolate isolate1 : Isolate) (exec1 : Object) :
  resolved_exec regexp exec isolate = (isolate1, Ok exec1) ->
  IsCallable isolate1 exec1 = true ->
  (forall isolate2 result,
      Call exec1 (Receiver regexp) [Str string] isolate1 = (isolate2, Ok result) ->
      IsJSReceiver result = false -> IsNull result = false ->
      RegExpExec regexp string exec isolate =
        (isolate2, Exception (NewTypeError kInvalidRegExpExecResult []))) /\
  (forall isolate2 result,
      Call exec1 (Receiver regexp) [Str string] isolate1 = (isolate2, Ok result) ->
      IsJSReceiver result = true \/ IsNull result = true ->
      RegExpExec regexp string exec isolate = (isolate2, Ok result)) /\
  (forall isolate2 e,
      Call exec1 (Receiver regexp) [Str string] isolate1 = (isolate2, Exception e) ->
      RegExpExec regexp string exec isolate = (isolate2, Exception e)).
Proof.
  intros Hresolved Hcallable.
  rewrite (RegExpExec_dispatch _ _ _ _ _ _ Hresolved), Hcallable.
  repeat split.
  - intros isolate2 result -> -> ->. reflexivity.
  - intros isolate2 result -> [-> | ->]; [reflexivity|].
    now rewrite andb_false_r.
  - intros isolate2 e ->. reflexivity.
Qed.

(** C2: when the resolved [exec] is not callable, RegExpExec throws the
    IncompatibleMethodReceiver type error, naming RegExp.prototype.exec and
    the receiver, unless the receiver is a JSRegExp; for a JSRegExp it is
    the call of the built-in exec function on the receiver and the
    string. *)
Theorem RegExpExec_not_callable
  (regexp : JSReceiver) (string : String) (exec : Object)
  (isolate isolate1 : Isolate) (exec1 : Object) :
  resolved_exec regexp exec isolate = (isolate1, Ok exec1) ->
  IsCallable isolate1 exec1 = false ->
  (IsJSRegExp isolate1 (Receiver regexp) = false ->
   RegExpExec regexp string exec isolate =
     (isolate1,
      Exception
        (NewTypeError kIncompatibleMethodReceiver
           [Str (NewStringFromAsciiChecked "RegExp.prototype.exec");
            Receiver regexp]))) /\
  (IsJSRegExp isolate1 (Receiver regexp) = true ->
   RegExpExec regexp string exec isolate =
     Call (regexp_exec_function isolate1) (Receiver regexp) [Str string]
       isolate1).
Proof.
  intros Hresolved Hcallable.
  rewrite (RegExpExec_dispatch _ _ _ _ _ _ Hresolved), Hcallable.
  split; intros ->; reflexivity.
Qed.

(** C9: RegExpExec writes nothing itself.  The isolate it leaves is the
    one the resolution of [exec] left (the initial one when [exec] was
    given), or the one a single call on the receiver and the string left
    from there. *)
Theorem RegExpExec_writes_nothing
  (regexp : JSReceiver) (string : String) (exec : Object) (isolate : Isolate) :
  fst (RegExpExec regexp string exec isolate) =
    fst (resolved_exec regexp exec isolate) \/
  exists callable,
    fst (RegExpExec regexp string exec isolate) =
      fst (Call callable (Receiver regexp) [Str string]
             (fst (resolved_exec regexp exec isolate))).
Proof.
  destruct (resolved_exec regexp exec isolate)
    as [isolate1 [exec1 | e |]] eqn:Hresolved.
  - rewrite (RegExpExec_dispatch _ _ _ _ _ _ Hresolved). cbn [fst].
    destruct (IsCallable isolate1 exec1).
    + right. exists exec1.
      destruct (Call exec1 (Receiver regexp) [Str string] isolate1)
        as [isolate2 [result | e |]]; try reflexivity.
      destruct (negb (IsJSReceiver result) && negb (IsNull result));
        reflexivity.
    + destruct (IsJSRegExp isolate1 (Receiver regexp)).
      * right. now exists (regexp_exec_function isolate1).
      * now left.
  - left. now rewrite (RegExpExec_lookup_throws _ _ _ _ _ _ Hresolved).
  - left. unfold RegExpExec. unfold resolved_exec in Hresolved.
    unfold bind at 1. now rewrite Hresolved.
Qed.

(** X11: a property of the isolate that the property lookups and the calls
    on the receiver preserve is preserved by RegExpExec. *)
Lemma RegExpExec_preserves
  (P : Isolate -> Prop) (regexp : JSReceiver) (string : String)
  (exec : Object) (isolate : Isolate) :
  (forall iso name,
      P iso -> P (fst (GetProperty (Receiver regexp) name iso))) ->
  (forall iso callable,
      P iso -> P (fst (Call callable (Receiver regexp) [Str string] iso))) ->
  P isolate -> P (fst (RegExpExec regexp string exec isolate)).
Proof.
  intros Hget Hcall HP.
  assert (Hres : P (fst (resolved_exec regexp exec isolate))).
  { unfold resolved_exec. destruct (IsUndefined exec); [now apply Hget|exact HP]. }
  destruct (resolved_exec regexp exec isolate)
    as [isolate1 [exec1 | e |]] eqn:Hresolved; cbn [fst] in Hres.
  - rewrite (RegExpExec_dispatch _ _ _ _ _ _ Hresolved).
    destruct (IsCallable isolate1 exec1).
    + specialize (Hcall isolate1 exec1 Hres).
      destruct (Call exec1 (Receiver regexp) [Str string] isolate1)
        as [isolate2 [result | e |]]; try exact Hcall.
      destruct (negb (IsJSReceiver result) && negb (IsNull result));
        exact Hcall.
    + destruct (IsJSRegExp isolate1 (Receiver regexp)); [|exact Hres].
      now apply Hcall.
  - now rewrite (RegExpExec_lookup_throws _ _ _ _ _ _ Hresolved).
  - unfold RegExpExec. unfold resolved_exec in Hresolved.
    unfold bind at 1. now rewrite Hresolved.
Qed.

(** When [exec] is given, its resolution leaves the isolate as it is. *)
Lemma resolved_exec_given
  (regexp : JSReceiver) (exec : Object) (isolate : Isolate) :
  IsUndefined exec = false ->
  resolved_exec regexp exec isolate = (isolate, Ok exec).
Proof. unfold resolved_exec. now intros ->. Qed.

Lemma resolved_exec_lookup
  (regexp : JSReceiver) (exec : Object) (isolate : Isolate) :
  IsUndefined exec = true ->
  resolved_exec regexp exec isolate =
    GetProperty (Receiver regexp)
      (NameString (NewStringFromAsciiChecked "exec")) isolate.
Proof. unfold resolved_exec. now intros ->. Qed.
End RegExpUtilsFacts.

Lemma RegExpExec_callable_witness :
  RegExpExec (host := Reference.host) 20 Examples.a_pair_b Undefined
    Examples.heap =
  (Examples.heap, Exception (NewTypeError kInvalidRegExpExecResult [])).
Proof.
  apply (proj1 (RegExpExec_callable (host := Reference.host)
                  20 Examples.a_pair_b Undefined Examples.heap Examples.heap
                  (Receiver 30) eq_refl eq_refl)
           Examples.heap (Smi 7)); reflexivity.
Defined.

Lemma RegExpExec_not_callable_witness :
  RegExpExec (host := Reference.host) 21 Examples.a_pair_b Undefined
    Examples.heap =
  (Examples.heap,
   Exception
     (NewTypeError kIncompatibleMethodReceiver
        [Str (NewStringFromAsciiChecked "RegExp.prototype.exec");
         Receiver 21])).
Proof.
  apply (proj1 (RegExpExec_not_callable (host := Reference.host)
                  21 Examples.a_pair_b Undefined Examples.heap Examples.heap
                  Undefined eq_refl eq_refl)); reflexivity.
Defined.

(** RegExpExec on the reference host: an override that returns null or an
    object, one that throws, a throwing [exec] getter, an explicit
    non-callable override on a regexp, and the built-in path. *)
Example RegExpExec_runs :
  RegExpExec (host := Reference.host) 20 [] (Receiver 31) Examples.heap
    = (Examples.heap, Ok Null) /\
  RegExpExec (host := Reference.host) 24 [] Undefined Examples.heap
    = (Examples.heap, Ok (Receiver 20)) /\
  RegExpExec (host := Reference.host) 20 [] (Receiver 32) Examples.heap
    = (Examples.heap, Exception (Thrown (Smi 42))) /\
  RegExpExec (host := Reference.host) 25 [] Undefined Examples.heap
    = (Examples.heap, Exception (Thrown (Smi 13))) /\
  RegExpExec (host := Reference.host) 11 [] Undefined Examples.heap
    = (Examples.heap, Ok Null) /\
  RegExpExec (host := Reference.host) 10 [] (Smi 5) Examples.heap
    = (Examples.heap, Ok Null) /\
  RegExpExec (host := Reference.host) 20 [] (Smi 5) Examples.heap
    = (Examples.heap,
       Exception
         (NewTypeError kIncompatibleMethodReceiver
            [Str (NewStringFromAsciiChecked "RegExp.prototype.exec");
             Receiver 20])).
Proof. repeat split. Qed.

(** ** IsRegExp and the lastIndex accessors *)

Section LastIndexFacts.
Context {host : Host}.

(** IsRegExp on a receiver, step by step. *)
Lemma IsRegExp_receiver (receiver : JSReceiver) (isolate : Isolate) :
  IsRegExp (Receiver receiver) isolate =
    if HasInitialRegExpMap isolate receiver then (isolate, Ok true)
    else
      match GetProperty (Receiver receiver) match_symbol isolate with
      | (isolate1, Ok match_) =>
          (isolate1,
           Ok (if IsUndefined match_
               then IsJSRegExp isolate1 (Receiver receiver)
               else BooleanValue isolate1 match_))
      | (isolate1, Exception e) => (isolate1, Exception e)
      | (isolate1, CheckFailed) => (isolate1, CheckFailed)
      end.
Proof.
  unfold HasInitialRegExpMap, IsRegExp. rewrite Map_eqb_sym.
  unfold bind at 1. unfold gets at 1. cbv beta iota.
  destruct (Map_eqb (regexp_initial_map isolate) (map isolate receiver));
    [reflexivity|].
  unfold bind.
  destruct (GetProperty (Receiver receiver) match_symbol isolate)
    as [isolate1 [match_ | e |]]; try reflexivity.
  destruct (IsUndefined match_); reflexivity.
Qed.

(** C6: IsRegExp is false on a value that is not a JSReceiver; true, with
    no property lookup, on a receiver that has the initial regexp map;
    otherwise it looks up the match symbol: an exception of the lookup is
    its result, a value other than undefined is returned as a boolean, and
    on undefined the answer is whether the object is a JSRegExp. *)
Theorem IsRegExp_spec (object : Object) (isolate : Isolate) :
  (IsJSReceiver object = false ->
   IsRegExp object isolate = (isolate, Ok false)) /\
  (forall receiver, object = Receiver receiver ->
     (HasInitialRegExpMap isolate receiver = true ->
      IsRegExp object isolate = (isolate, Ok true)) /\
     (HasInitialRegExpMap isolate receiver = false ->
      (forall isolate1 e,
          GetProperty object match_symbol isolate = (isolate1, Exception e) ->
          IsRegExp object isolate = (isolate1, Exception e)) /\
      (forall isolate1 match_,
          GetProperty object match_symbol isolate = (isolate1, Ok match_) ->
          IsUndefined match_ = false ->
          IsRegExp object isolate =
            (isolate1, Ok (BooleanValue isolate1 match_))) /\
      (forall isolate1 match_,
          GetProperty object match_symbol isolate = (isolate1, Ok match_) ->
          IsUndefined match_ = true ->
          IsRegExp object isolate =
            (isolate1, Ok (IsJSRegExp isolate1 object))))).
Proof.
  split.
  - destruct object; try reflexivity. discriminate.
  - intros receiver ->. rewrite IsRegExp_receiver.
    split; intros ->; [reflexivity|].
    repeat split.
    + intros isolate1 e ->. reflexivity.
    + intros isolate1 match_ -> ->. reflexivity.
    + intros isolate1 match_ -> ->. reflexivity.
Qed.

(** The two paths of the accessors: the field of the regexp on a receiver
    with the initial regexp map, the generic property access otherwise. *)
Lemma LastIndex_dispatch
  (recv : JSReceiver) (value : Z) (isolate : Isolate) :
  (HasInitialRegExpMap isolate recv = true ->
   GetLastIndex recv isolate = (isolate, Ok (JSRegExp_LastIndex isolate recv)) /\
   SetLastIndex recv value isolate =
     (JSRegExp_SetLastIndex isolate recv value, Ok (Receiver recv))) /\
  (HasInitialRegExpMap isolate recv = false ->
   GetLastIndex recv isolate =
     GetProperty (Receiver recv) lastIndex_string isolate /\
   SetLastIndex recv value isolate =
     SetProperty (Receiver recv) lastIndex_string (Smi value) STRICT isolate).
Proof.
  unfold GetLastIndex, SetLastIndex.
  split; intros ->; split; reflexivity.
Qed.

Lemma SetLastIndex_cases (recv : JSReceiver) (value : Z) (isolate : Isolate) :
  SetLastIndex recv value isolate =
    if HasInitialRegExpMap isolate recv
    then (JSRegExp_SetLastIndex isolate recv value, Ok (Receiver recv))
    else SetProperty (Receiver recv) lastIndex_string (Smi value) STRICT
           isolate.
Proof. reflexivity. Qed.

(** ** SetAdvancedStringIndex *)

(** SetAdvancedStringIndex once the read and the coercion of lastIndex
    have given the Smi [k]. *)
Lemma SetAdvancedStringIndex_on_smi
  (regexp : JSReceiver) (string : String) (unicode : bool)
  (isolate isolate1 isolate2 : Isolate) (value : Object) (k : Z) :
  GetProperty (Receiver regexp) lastIndex_string isolate = (isolate1, Ok value) ->
  ToLength value isolate1 = (isolate2, Ok (Smi k)) ->
  SetAdvancedStringIndex regexp string unicode isolate =
    match result (AdvanceStringIndex string k unicode) with
    | Some increment => SetLastIndex regexp (Int.add k increment) isolate2
    | None => (isolate2, CheckFailed)
    end.
Proof.
  intros Hget Hlen. unfold SetAdvancedStringIndex.
  unfold bind at 1. rewrite Hget.
  unfold bind at 1. rewrite Hlen.
  unfold bind at 1. cbn [Smi_value check].
  unfold bind, check.
  destruct (result (AdvanceStringIndex string k unicode)); reflexivity.
Qed.

(** X15: when the read of lastIndex throws, SetAdvancedStringIndex returns
    that exception in the isolate the read left: nothing is coerced and
    nothing is written. *)
Lemma SetAdvancedStringIndex_read_throws
  (regexp : JSReceiver) (string : String) (unicode : bool)
  (isolate isolate1 : Isolate) (e : Error) :
  GetProperty (Receiver regexp) lastIndex_string isolate
    = (isolate1, Exception e) ->
  SetAdvancedStringIndex regexp string unicode isolate
    = (isolate1, Exception e).
Proof.
  intros Hget. unfold SetAdvancedStringIndex. unfold bind at 1.
  now rewrite Hget.
Qed.

(** X16: when the coercion of the value read throws, SetAdvancedStringIndex
    returns that exception in the isolate the coercion left: nothing is
    written. *)
Lemma SetAdvancedStringIndex_coercion_throws
  (regexp : JSReceiver) (string : String) (unicode : bool)
  (isolate isolate1 isolate2 : Isolate) (value : Object) (e : Error) :
  GetProperty (Receiver regexp) lastIndex_string isolate = (isolate1, Ok value) ->
  ToLength value isolate1 = (isolate2, Exception e) ->
  SetAdvancedStringIndex regexp string unicode isolate
    = (isolate2, Exception e).
Proof.
  intros Hget Hlen. unfold SetAdvancedStringIndex.
  unfold bind at 1. rewrite Hget.
  unfold bind at 1. now rewrite Hlen.
Qed.

(** When the coercion gives a number that is not a Smi, the cast fails
    and nothing is written. *)
Lemma SetAdvancedStringIndex_not_smi
  (regexp : JSReceiver) (string : String) (unicode : bool)
  (isolate isolate1 isolate2 : Isolate) (value length : Object) :
  GetProperty (Receiver regexp) lastIndex_string isolate = (isolate1, Ok value) ->
  ToLength value isolate1 = (isolate2, Ok length) ->
  Smi_value length = None ->
  SetAdvancedStringIndex regexp string unicode isolate
    = (isolate2, CheckFailed).
Proof.
  intros Hget Hlen Hsmi. unfold SetAdvancedStringIndex.
  unfold bind at 1. rewrite Hget.
  unfold bind at 1. rewrite Hlen.
  unfold bind at 1. now rewrite Hsmi.
Qed.

(** From the largest [int] the sum wraps: lastIndex is set to the smallest
    one. *)
Lemma SetAdvancedStringIndex_wraps
  (regexp : JSReceiver) (string : String)
  (isolate isolate1 isolate2 : Isolate) (value : Object) :
  GetProperty (Receiver regexp) lastIndex_string isolate = (isolate1, Ok value) ->
  ToLength value isolate1 = (isolate2, Ok (Smi Int.kMaxInt)) ->
  SetAdvancedStringIndex regexp string false isolate
    = SetLastIndex regexp Int.kMinInt isolate2.
Proof.
  intros Hget Hlen.
  rewrite (SetAdvancedStringIndex_on_smi _ _ _ _ _ _ _ _ Hget Hlen).
  reflexivity.
Qed.

(** C3 (amended): SetAdvancedStringIndex reads lastIndex with the generic
    property read and coerces it with ToLength; when that gives a Smi [k]
    with [0 <= k] and [k + 2] within [int], it calls SetLastIndex with
    [k + increment], where [increment] is what AdvanceStringIndex returns
    for [k]: 1 without the unicode flag, 2 with the flag on a surrogate
    pair at [k].  Its result is the result of SetLastIndex: the receiver on
    a receiver with the initial regexp map, the result of the strict
    property write otherwise. *)
Theorem SetAdvancedStringIndex_spec
  (regexp : JSReceiver) (string : String) (unicode : bool)
  (isolate isolate1 isolate2 : Isolate) (value : Object) (k : Z) :
  GetProperty (Receiver regexp) lastIndex_string isolate = (isolate1, Ok value) ->
  ToLength value isolate1 = (isolate2, Ok (Smi k)) ->
  0 <= k -> k + 2 <= Int.kMaxInt -> String_length string <= Int.kMaxInt ->
  exists increment,
    result (AdvanceStringIndex string k unicode) = Some increment /\
    (unicode = false -> increment = 1) /\
    (unicode = true -> surrogate_pair_at string k -> increment = 2) /\
    SetAdvancedStringIndex regexp string unicode isolate =
      SetLastIndex regexp (k + increment) isolate2 /\
    (HasInitialRegExpMap isolate2 regexp = true ->
     SetAdvancedStringIndex regexp string unicode isolate =
       (JSRegExp_SetLastIndex isolate2 regexp (k + increment),
        Ok (Receiver regexp))) /\
    (HasInitialRegExpMap isolate2 regexp = false ->
     SetAdvancedStringIndex regexp string unicode isolate =
       SetProperty (Receiver regexp) lastIndex_string (Smi (k + increment))
         STRICT isolate2).
Proof.
  intros Hget Hlen Hk Hmax Hstr.
  rewrite (SetAdvancedStringIndex_on_smi _ _ _ _ _ _ _ _ Hget Hlen).
  destruct (AdvanceStringIndex_result string k unicode Hk Hstr)
    as [Hvalue Htwo].
  assert (Hinc : exists increment,
             result (AdvanceStringIndex string k unicode) = Some increment /\
             (increment = 1 \/ increment = 2)).
  { destruct Hvalue as [E|E]; rewrite E; eauto. }
  destruct Hinc as (increment & E & Hrange).
  exists increment. rewrite E.
  rewrite Int_add_exact by int_bounds.
  split; [reflexivity|]. split; [|split].
  - intros ->. rewrite AdvanceStringIndex_non_unicode in E.
    now injection E.
  - intros -> Hpair.
    assert (Htwo' : result (AdvanceStringIndex string k true) = Some 2).
    { apply Htwo. repeat split; auto.
      destruct Hpair as (first & _ & Hfirst & _).
      now apply unit_at_Some_bounds in Hfirst. }
    rewrite E in Htwo'. now injection Htwo'.
  - rewrite SetLastIndex_cases.
    split; [reflexivity|]. split; intros ->; reflexivity.
Qed.
End LastIndexFacts.

Lemma a_pair_b_pair_at_1 : surrogate_pair_at Examples.a_pair_b 1.
Proof.
  exists 0xD834, 0xDF06. repeat split; try reflexivity; vm_compute; discriminate.
Defined.

Lemma SetAdvancedStringIndex_spec_witness :
  exists increment,
    result (AdvanceStringIndex Examples.a_pair_b 1 true) = Some increment /\
    (true = false -> increment = 1) /\
    (true = true -> surrogate_pair_at Examples.a_pair_b 1 -> increment = 2) /\
    SetAdvancedStringIndex (host := Reference.host) 12 Examples.a_pair_b true
      Examples.heap =
      SetLastIndex (host := Reference.host) 12 (1 + increment) Examples.heap /\
    (HasInitialRegExpMap (host := Reference.host) Examples.heap 12 = true ->
     SetAdvancedStringIndex (host := Reference.host) 12 Examples.a_pair_b true
       Examples.heap =
       (Reference.set_last_index Examples.heap 12 (1 + increment),
        Ok (Receiver 12))) /\
    (HasInitialRegExpMap (host := Reference.host) Examples.heap 12 = false ->
     SetAdvancedStringIndex (host := Reference.host) 12 Examples.a_pair_b true
       Examples.heap =
       Reference.set_property (Receiver 12) lastIndex_string
         (Smi (1 + increment)) STRICT Examples.heap).
Proof.
  apply (SetAdvancedStringIndex_spec (host := Reference.host)
           12 Examples.a_pair_b true
           Examples.heap Examples.heap Examples.heap (Smi 1) 1).
  - reflexivity.
  - reflexivity.
  - lia.
  - vm_compute. discriminate.
  - vm_compute. discriminate.
Defined.

(** SetAdvancedStringIndex on the reference host: from lastIndex 1, to 3
    over the surrogate pair in unicode mode and to 2 without the flag, on a
    regexp and on a plain object. *)
Example SetAdvancedStringIndex_runs :
  Reference.last_index
    (fst (SetAdvancedStringIndex (host := Reference.host)
            12 Examples.a_pair_b true Examples.heap)) 12 = Smi 3 /\
  Reference.last_index
    (fst (SetAdvancedStringIndex (host := Reference.host)
            12 Examples.a_pair_b false Examples.heap)) 12 = Smi 2 /\
  Reference.last_index
    (fst (SetAdvancedStringIndex (host := Reference.host)
            20 Examples.a_pair_b true Examples.heap)) 20 = Smi 3 /\
  snd (SetAdvancedStringIndex (host := Reference.host)
         20 Examples.a_pair_b true Examples.heap) = Ok (Smi 3) /\
  SetAdvancedStringIndex (host := Reference.host)
    21 Examples.a_pair_b false Examples.heap =
    (Examples.heap,
     Exception (NewTypeError kStrictReadOnlyProperty [Receiver 21])).
Proof. repeat split. Qed.

(** C3, as stated, fails on the value returned: on a regexp with the
    initial map, SetAdvancedStringIndex moves lastIndex from 0 to 1 and
    returns the receiver, not the new lastIndex. *)
Lemma SetAdvancedStringIndex_returns_receiver :
  Reference.last_index
    (fst (SetAdvancedStringIndex (host := Reference.host)
            10 Examples.a_pair_b false Examples.heap)) 10 = Smi 1 /\
  snd (SetAdvancedStringIndex (host := Reference.host)
         10 Examples.a_pair_b false Examples.heap) = Ok (Receiver 10) /\
  snd (SetAdvancedStringIndex (host := Reference.host)
         10 Examples.a_pair_b false Examples.heap) <> Ok (Smi 1).
Proof. repeat split. discriminate. Qed.

(** ** The length coercion of the reference host *)

Lemma decimal_nonneg (s : String) (acc value : Z) :
  0 <= acc -> Reference.decimal s acc = Some value -> 0 <= value.
Proof.
  revert acc. induction s as [|c rest IH]; intros acc Hacc;
    cbn [Reference.decimal].
  - intros E. injection E as <-. exact Hacc.
  - unfold Reference.digit_value.
    destruct (Z.leb_spec 48 c); [|discriminate].
    destruct (Z.leb_spec c 57); [|discriminate].
    cbn [andb]. apply IH. lia.
Qed.

(** The coercion gives an integer of [[0, 2^53 - 1]]. *)
Lemma to_length_range (input : Object) :
  0 <= Reference.to_length input <= Reference.kMaxSafeInteger.
Proof.
  destruct input as [| |b|value|d|s|recv]; cbn [Reference.to_length].
  all: unfold Reference.kMaxSafeInteger.
  all: try lia.
  - destruct b; lia.
  - destruct d as [sg|sg| |sg m e]; cbn [Reference.double_to_length];
      unfold Reference.kMaxSafeInteger; try lia.
    + destruct sg; lia.
    + destruct sg; [lia|].
      assert (Hpart : 0 <= (if 0 <=? e then Z.pos m * 2 ^ e
                            else Z.pos m / 2 ^ (- e))).
      { destruct (0 <=? e).
        - apply Z.mul_nonneg_nonneg; [lia|]. apply Z.pow_nonneg. lia.
        - apply Z_div_nonneg_nonneg; [lia|]. apply Z.pow_nonneg. lia. }
      lia.
  - destruct (Reference.decimal s 0) as [value|] eqn:E; [|lia].
    apply decimal_nonneg in E; lia.
Qed.

Example to_length_values :
  Reference.to_length Undefined = 0 /\
  Reference.to_length (Smi (-5)) = 0 /\
  Reference.to_length (HeapNumber S754_nan) = 0 /\
  Reference.to_length (Str [0x61]) = 0 /\
  Reference.to_length (Str [0x34; 0x32]) = 42 /\
  Reference.to_length (Reference.NewNumber (2 ^ 31)) = 2 ^ 31 /\
  Reference.to_length (Reference.NewNumber (2 ^ 60)) = 2 ^ 53 - 1 /\
  Reference.to_length (HeapNumber (S754_infinity false)) = 2 ^ 53 - 1.
Proof. repeat split. Qed.

(** C8 (the code departs from it): a lastIndex of [2^31] is within the
    range of ToLength and stays [2^31] under it, but it is a heap number,
    not a Smi, so the cast in SetAdvancedStringIndex fails and lastIndex is
    not advanced; from [2^31 - 1] the addition wraps and lastIndex becomes
    [-2^31]. *)
Theorem SetAdvancedStringIndex_beyond_smi :
  Reference.to_length (Reference.NewNumber (2 ^ 31)) = 2 ^ 31 /\
  Smi_value (Reference.NewNumber (2 ^ 31)) = None /\
  SetAdvancedStringIndex (host := Reference.host) 22 [] false Examples.heap
    = (Examples.heap, CheckFailed) /\
  Reference.last_index
    (fst (SetAdvancedStringIndex (host := Reference.host)
            23 [] false Examples.heap)) 23 = Smi (- 2 ^ 31).
Proof. repeat split. Qed.

(** ** The accessors and the predicate on the reference host *)

Example IsRegExp_runs :
  IsRegExp (host := Reference.host) (Smi 3) Examples.heap
    = (Examples.heap, Ok false) /\
  IsRegExp (host := Reference.host) (Receiver 10) Examples.heap
    = (Examples.heap, Ok true) /\
  IsRegExp (host := Reference.host) (Receiver 11) Examples.heap
    = (Examples.heap, Ok true) /\
  IsRegExp (host := Reference.host) (Receiver 20) Examples.heap
    = (Examples.heap, Ok false) /\
  IsRegExp (host := Reference.host) (Receiver 24) Examples.heap
    = (Examples.heap, Ok true) /\
  IsRegExp (host := Reference.host) (Receiver 25) Examples.heap
    = (Examples.heap, Exception (Thrown (Smi 14))).
Proof. repeat split. Qed.

(** The strict write of SetLastIndex on a frozen plain object throws,
    where a sloppy write would have been dropped. *)
Example LastIndex_accessors_run :
  GetLastIndex (host := Reference.host) 10 Examples.heap
    = (Examples.heap, Ok (Smi 0)) /\
  GetLastIndex (host := Reference.host) 20 Examples.heap
    = (Examples.heap, Ok (Smi 1)) /\
  snd (SetLastIndex (host := Reference.host) 10 5 Examples.heap)
    = Ok (Receiver 10) /\
  Reference.last_index
    (fst (SetLastIndex (host := Reference.host) 10 5 Examples.heap)) 10
    = Smi 5 /\
  snd (SetLastIndex (host := Reference.host) 20 5 Examples.heap)
    = Ok (Smi 5) /\
  SetLastIndex (host := Reference.host) 21 5 Examples.heap
    = (Examples.heap,
       Exception (NewTypeError kStrictReadOnlyProperty [Receiver 21])) /\
  Reference.set_property (Receiver 21) lastIndex_string (Smi 5) SLOPPY
    Examples.heap = (Examples.heap, Ok (Smi 5)).
Proof. repeat split. Qed.

(** ** The accessors under the strict-failure contract *)

Lemma Reference_strict_write_read_only
  (heap : Reference.Heap) (recv : JSReceiver) (name : Name) (value : Object) :
  ReferenceWrites.read_only heap recv name = true ->
  exists e,
    Reference.set_property (Receiver recv) name value STRICT heap
      = (heap, Exception e).
Proof.
  unfold ReferenceWrites.read_only, Reference.set_property.
  destruct (Reference.lookup heap recv) as [o|]; [|discriminate].
  destruct (Reference.find_property (Reference.properties o) name)
    as [[v [|] | c]|]; try discriminate.
  intros _. eauto.
Qed.

Lemma Reference_strict_write_not_extensible
  (heap : Reference.Heap) (recv : JSReceiver) (name : Name) (value : Object) :
  ReferenceWrites.not_extensible_for heap recv name = true ->
  exists e,
    Reference.set_property (Receiver recv) name value STRICT heap
      = (heap, Exception e).
Proof.
  unfold ReferenceWrites.not_extensible_for, Reference.set_property.
  destruct (Reference.lookup heap recv) as [o|]; [|discriminate].
  destruct (Reference.find_property (Reference.properties o) name)
    as [p|]; [discriminate|].
  destruct (Reference.extensible o); [discriminate|].
  intros _. eauto.
Qed.

Lemma Reference_sloppy_write_dropped
  (heap : Reference.Heap) (recv : JSReceiver) (name : Name) (value : Object) :
  ReferenceWrites.read_only heap recv name = true \/
  ReferenceWrites.not_extensible_for heap recv name = true ->
  Reference.set_property (Receiver recv) name value SLOPPY heap
    = (heap, Ok value).
Proof.
  unfold ReferenceWrites.read_only, ReferenceWrites.not_extensible_for,
    Reference.set_property.
  destruct (Reference.lookup heap recv) as [o|];
    [|intros [H|H]; discriminate].
  destruct (Reference.find_property (Reference.properties o) name)
    as [[v [|] | c]|]; try (intros [H|H]; discriminate); try reflexivity.
  destruct (Reference.extensible o); [intros [H|H]; discriminate|reflexivity].
Qed.

(** The reference host keeps the contract, on every heap. *)
Definition reference_strict_writes : @StrictWrites Reference.host :=
  @Build_StrictWrites Reference.host
    ReferenceWrites.read_only
    ReferenceWrites.not_extensible_for
    Reference_strict_write_read_only
    Reference_strict_write_not_extensible
    Reference_sloppy_write_dropped.

Section StrictAccessors.
Context {host : Host} {law : StrictWrites}.

(** C7: on a receiver with the initial regexp map, GetLastIndex and
    SetLastIndex read and write the field of the regexp and return a value;
    on every other receiver they are the generic property read and the
    generic property write in strict mode under the key lastIndex, with the
    result and the exception of that access.  Hence, on a host that keeps
    the strict-failure contract, SetLastIndex on a receiver whose lastIndex
    is not writable, or that lacks lastIndex and is not extensible, fails
    with an exception, where the sloppy write of the same value would have
    been dropped. *)
Theorem LastIndex_accessors
  (recv : JSReceiver) (value : Z) (isolate : Isolate) :
  (HasInitialRegExpMap isolate recv = true ->
   GetLastIndex recv isolate = (isolate, Ok (JSRegExp_LastIndex isolate recv)) /\
   SetLastIndex recv value isolate =
     (JSRegExp_SetLastIndex isolate recv value, Ok (Receiver recv))) /\
  (HasInitialRegExpMap isolate recv = false ->
   GetLastIndex recv isolate =
     GetProperty (Receiver recv) lastIndex_string isolate /\
   SetLastIndex recv value isolate =
     SetProperty (Receiver recv) lastIndex_string (Smi value) STRICT isolate /\
   (read_only isolate recv lastIndex_string = true \/
    not_extensible_for isolate recv lastIndex_string = true ->
    (exists e, SetLastIndex recv value isolate = (isolate, Exception e)) /\
    SetProperty (Receiver recv) lastIndex_string (Smi value) SLOPPY isolate
      = (isolate, Ok (Smi value)))).
Proof.
  split.
  - intros Hfast. unfold GetLastIndex, SetLastIndex. rewrite Hfast. now split.
  - intros Hgeneric.
    assert (Hset : SetLastIndex recv value isolate =
                   SetProperty (Receiver recv) lastIndex_string (Smi value)
                     STRICT isolate)
      by (unfold SetLastIndex; now rewrite Hgeneric).
    split; [unfold GetLastIndex; now rewrite Hgeneric|].
    split; [exact Hset|].
    intros Hrefused. split.
    + rewrite Hset. destruct Hrefused as [Hro|Hne].
      * now apply strict_write_read_only.
      * now apply strict_write_not_extensible.
    + now apply sloppy_write_dropped.
Qed.
End StrictAccessors.

(** On the reference host: the strict write of SetLastIndex fails on the
    object at 21, whose lastIndex is not writable, and on the object at
    29, which has no lastIndex and is not extensible. *)
Lemma LastIndex_accessors_witness :
  ((exists e,
       SetLastIndex (host := Reference.host) 21 5 ReferenceWrites.heap
         = (ReferenceWrites.heap, Exception e)) /\
   Reference.set_property (Receiver 21) lastIndex_string (Smi 5) SLOPPY
     ReferenceWrites.heap = (ReferenceWrites.heap, Ok (Smi 5))) /\
  ((exists e,
       SetLastIndex (host := Reference.host) 29 5 ReferenceWrites.heap
         = (ReferenceWrites.heap, Exception e)) /\
   Reference.set_property (Receiver 29) lastIndex_string (Smi 5) SLOPPY
     ReferenceWrites.heap = (ReferenceWrites.heap, Ok (Smi 5))).
Proof.
  split.
  - apply (proj2 (LastIndex_accessors (law := reference_strict_writes)
                    21 5 ReferenceWrites.heap) eq_refl).
    left. reflexivity.
  - apply (proj2 (LastIndex_accessors (law := reference_strict_writes)
                    29 5 ReferenceWrites.heap) eq_refl).
    right. reflexivity.
Defined.

(** The exceptions of the two strict writes, and a write that succeeds. *)
Example SetLastIndex_strict_runs :
  SetLastIndex (host := Reference.host) 21 5 ReferenceWrites.heap
    = (ReferenceWrites.heap,
       Exception (NewTypeError kStrictReadOnlyProperty [Receiver 21])) /\
  SetLastIndex (host := Reference.host) 29 5 ReferenceWrites.heap
    = (ReferenceWrites.heap,
       Exception (NewTypeError kObjectNotExtensible [Receiver 29])) /\
  snd (SetLastIndex (host := Reference.host) 20 5 ReferenceWrites.heap)
    = Ok (Smi 5) /\
  GetLastIndex (host := Reference.host) 20
    (fst (SetLastIndex (host := Reference.host) 20 5 ReferenceWrites.heap))
    = (fst (SetLastIndex (host := Reference.host) 20 5 ReferenceWrites.heap),
       Ok (Smi 5)).
Proof. repeat split. Qed.

(** * Further properties *)

(** ** AdvanceStringIndex inside the string *)

(** X1: from an index inside the string, AdvanceStringIndex moves forward
    and never past the end of the string: the index plus the increment is
    at most the length. *)
Theorem AdvanceStringIndex_stays_in_string
  (string : String) (index : Z) (unicode : bool) :
  0 <= index < String_length string ->
  String_length string <= Int.kMaxInt ->
  exists increment,
    result (AdvanceStringIndex string index unicode) = Some increment /\
    index < index + increment <= String_length string.
Proof.
  intros [Hidx Hlt] Hlen.
  destruct (AdvanceStringIndex_cases string index unicode Hidx Hlen)
    as [[Hc E] | [(first & Hu & _ & Hf & Hc & E)
                 | (first & second & Hu & Hnext & Hf & Hs & Hlead & E)]];
    rewrite E; cbn [result].
  - exists 1. split; [reflexivity|lia].
  - exists 1. split; [reflexivity|lia].
  - destruct ((second >=? 0xDC00) && (second <=? 0xDFFF)).
    + exists 2. split; [reflexivity|lia].
    + exists 1. split; [reflexivity|lia].
Qed.

Lemma AdvanceStringIndex_stays_in_string_witness :
  exists increment,
    result (AdvanceStringIndex Examples.a_pair_b 1 true) = Some increment /\
    1 < 1 + increment <= String_length Examples.a_pair_b.
Proof.
  apply (AdvanceStringIndex_stays_in_string Examples.a_pair_b 1 true).
  - vm_compute. split; [discriminate|reflexivity].
  - vm_compute. discriminate.
Defined.

Lemma unit_at_In (s : String) (p : Z) (c : uc16) :
  unit_at s p = Some c -> In c s.
Proof.
  unfold unit_at. destruct (0 <=? p); [|discriminate].
  apply nth_error_In.
Qed.

(** X2: on a string that holds no leading surrogate the unicode flag makes
    no difference: the increment is 1 at every non-negative index. *)
Theorem AdvanceStringIndex_without_lead_surrogates
  (string : String) (index : Z) (unicode : bool) :
  0 <= index -> String_length string <= Int.kMaxInt ->
  (forall c, In c string -> ~ 0xD800 <= c <= 0xDBFF) ->
  result (AdvanceStringIndex string index unicode) = Some 1.
Proof.
  intros Hidx Hlen Hnone.
  destruct (AdvanceStringIndex_result string index unicode Hidx Hlen)
    as [[E|E] Htwo]; [exact E|].
  apply Htwo in E. destruct E as (_ & _ & first & second & Hf & _ & Hlead & _).
  apply unit_at_In in Hf. now apply Hnone in Hf.
Qed.

Lemma AdvanceStringIndex_without_lead_surrogates_witness :
  result (AdvanceStringIndex [0x61; 0xDF06; 0x62] 1 true) = Some 1.
Proof.
  apply (AdvanceStringIndex_without_lead_surrogates [0x61; 0xDF06; 0x62] 1 true).
  - lia.
  - vm_compute. discriminate.
  - intros c [<- | [<- | [<- | []]]]; lia.
Defined.

(** X3: the increment at an index depends only on the length of the string
    and on its code units at the index and right after it. *)
Theorem AdvanceStringIndex_local
  (s1 s2 : String) (index : Z) (unicode : bool) :
  0 <= index -> String_length s1 <= Int.kMaxInt ->
  String_length s1 = String_length s2 ->
  unit_at s1 index = unit_at s2 index ->
  unit_at s1 (index + 1) = unit_at s2 (index + 1) ->
  result (AdvanceStringIndex s1 index unicode) =
  result (AdvanceStringIndex s2 index unicode).
Proof.
  intros Hidx Hlen Hsame H0 H1.
  assert (Hlen2 : String_length s2 <= Int.kMaxInt) by lia.
  destruct (AdvanceStringIndex_result s1 index unicode Hidx Hlen)
    as [Hv1 Ht1].
  destruct (AdvanceStringIndex_result s2 index unicode Hidx Hlen2)
    as [Hv2 Ht2].
  assert (Hpair : surrogate_pair_at s1 index <-> surrogate_pair_at s2 index).
  { unfold surrogate_pair_at. rewrite H0, H1. reflexivity. }
  destruct Hv1 as [E1|E1]; destruct Hv2 as [E2|E2]; rewrite E1, E2;
    try reflexivity; exfalso.
  - apply Ht2 in E2. destruct E2 as (Hu & Hlt & Hp).
    assert (E : result (AdvanceStringIndex s1 index unicode) = Some 2).
    { apply Ht1. repeat split; [exact Hu|lia|now apply Hpair]. }
    congruence.
  - apply Ht1 in E1. destruct E1 as (Hu & Hlt & Hp).
    assert (E : result (AdvanceStringIndex s2 index unicode) = Some 2).
    { apply Ht2. repeat split; [exact Hu|lia|now apply Hpair]. }
    congruence.
Qed.

Lemma AdvanceStringIndex_local_witness :
  result (AdvanceStringIndex Examples.a_pair_b 1 true) =
  result (AdvanceStringIndex [0x7A; 0xD834; 0xDF06; 0x7A] 1 true).
Proof.
  apply (AdvanceStringIndex_local
           Examples.a_pair_b [0x7A; 0xD834; 0xDF06; 0x7A] 1 true).
  - lia.
  - vm_compute. discriminate.
  - reflexivity.
  - reflexivity.
  - reflexivity.
Defined.

(** ** The last-match info: reads after writes *)

Lemma GetElement_as_nth (match_info : LastMatchInfo) (index : Z) :
  GetElement match_info index =
    nth (Z.to_nat (Int.to_uint32 index)) match_info Undefined.
Proof.
  unfold GetElement.
  destruct (Z.ltb_spec (Int.to_uint32 index)
              (Z.of_nat (List.length match_info))) as [Hin|Hout];
    [reflexivity|].
  symmetry. apply nth_overflow. lia.
Qed.

Lemma nth_store_element_same (n : nat) (elements : LastMatchInfo)
  (value : Object) :
  nth n (store_element n elements value) Undefined = value.
Proof.
  revert elements. induction n as [|n IH]; intros [|x rest]; cbn; auto.
Qed.

Lemma nth_store_element_other (n m : nat) (elements : LastMatchInfo)
  (value : Object) :
  n <> m ->
  nth m (store_element n elements value) Undefined = nth m elements Undefined.
Proof.
  revert m elements.
  induction n as [|n IH]; intros [|m] [|x rest] Hne; cbn; auto;
    try congruence.
  - now destruct m.
  - rewrite IH by congruence. now destruct m.
Qed.

Lemma Int_to_uint32_nonneg_result (z : Z) : 0 <= Int.to_uint32 z.
Proof.
  unfold Int.to_uint32. apply Z.mod_pos_bound. lia.
Qed.

Lemma GetElement_SetElement_same (match_info : LastMatchInfo) (index : Z)
  (value : Object) :
  GetElement (SetElement match_info index value) index = value.
Proof.
  rewrite GetElement_as_nth. unfold SetElement.
  apply nth_store_element_same.
Qed.

Lemma GetElement_SetElement_other (match_info : LastMatchInfo)
  (index other : Z) (value : Object) :
  Int.to_uint32 index <> Int.to_uint32 other ->
  GetElement (SetElement match_info index value) other =
    GetElement match_info other.
Proof.
  intros Hne. rewrite !GetElement_as_nth. unfold SetElement.
  apply nth_store_element_other.
  pose proof (Int_to_uint32_nonneg_result index).
  pose proof (Int_to_uint32_nonneg_result other). lia.
Qed.

Section LastMatchWrites.
Context {layout : RegExpImpl}.

(** X4: whenever the getter returns with the flag [false], the string it
    returns is the empty string, whatever the last-match info holds. *)
Theorem GenericCaptureGetter_not_ok_is_empty
  (match_info : LastMatchInfo) (capture : Z) (s : String) :
  GenericCaptureGetter match_info capture = Some (s, false) ->
  s = empty_string.
Proof.
  unfold GenericCaptureGetter, option_bind.
  destruct (GetLastMatchNumberOfCaptures match_info) as [count|];
    [|discriminate].
  destruct (Int.mul capture 2 >=? count); [congruence|].
  destruct (GetLastMatchCapture match_info (Int.mul capture 2))
    as [match_start|]; [|discriminate].
  destruct (GetLastMatchCapture match_info (Int.add (Int.mul capture 2) 1))
    as [match_end|]; [|discriminate].
  destruct ((match_start =? -1) || (match_end =? -1)); [congruence|].
  destruct (GetLastMatchSubject match_info); discriminate.
Qed.

(** X7: after the two offsets of a group are written with
    SetLastMatchField, the getter returns the substring of the subject
    between them (or the empty string and [false] when one is [-1]); the
    count and the subject are the ones the buffer held before. *)
Theorem GenericCaptureGetter_after_store
  (match_info : LastMatchInfo) (capture count match_start match_end : Z)
  (last_subject : String) :
  0 <= kLastCaptureCount < kFirstCapture ->
  0 <= kLastSubject < kFirstCapture ->
  GetLastMatchNumberOfCaptures match_info = Some count ->
  GetLastMatchSubject match_info = Some last_subject ->
  0 <= capture -> capture * 2 + 1 < count ->
  kFirstCapture + count <= Int.kMaxInt ->
  GenericCaptureGetter
    (SetLastMatchField
       (SetLastMatchField match_info (kFirstCapture + capture * 2)
          (Smi match_start))
       (kFirstCapture + capture * 2 + 1) (Smi match_end))
    capture =
  Some (if (match_start =? -1) || (match_end =? -1)
        then (empty_string, false)
        else (NewSubString last_subject match_start match_end, true)).
Proof.
  intros Hcount_at Hsubject_at Hcount Hsubject Hcap Hnext Hfit.
  assert (Hu : forall z, 0 <= z <= Int.kMaxInt -> Int.to_uint32 z = z)
    by (intros; now apply Int_to_uint32_nonneg).
  unfold GenericCaptureGetter.
  unfold GetLastMatchNumberOfCaptures, GetLastMatchSubject,
    GetLastMatchCapture, GetLastMatchField, SetLastMatchField in *.
  rewrite Int_mul_exact by int_bounds.
  rewrite !Int_add_exact by int_bounds.
  rewrite (GetElement_SetElement_other _ _ kLastCaptureCount)
    by (rewrite !Hu by int_bounds; lia).
  rewrite (GetElement_SetElement_other _ _ kLastCaptureCount)
    by (rewrite !Hu by int_bounds; lia).
  rewrite Hcount. cbn [option_bind].
  destruct (Z.geb_spec (capture * 2) count); [lia|].
  rewrite (GetElement_SetElement_other _ _ (kFirstCapture + capture * 2))
    by (rewrite !Hu by int_bounds; lia).
  rewrite GetElement_SetElement_same.
  cbn [Smi_value option_bind].
  rewrite (Int_add_exact (capture * 2) 1) by int_bounds.
  rewrite Int_add_exact by int_bounds.
  replace (kFirstCapture + (capture * 2 + 1))
    with (kFirstCapture + capture * 2 + 1) by lia.
  rewrite GetElement_SetElement_same.
  cbn [Smi_value option_bind].
  destruct ((match_start =? -1) || (match_end =? -1)); [reflexivity|].
  rewrite (GetElement_SetElement_other _ _ kLastSubject)
    by (rewrite !Hu by int_bounds; lia).
  rewrite (GetElement_SetElement_other _ _ kLastSubject)
    by (rewrite !Hu by int_bounds; lia).
  now rewrite Hsubject.
Qed.
End LastMatchWrites.

Lemma GenericCaptureGetter_not_ok_is_empty_witness :
  snd MoreExamples.GenericCaptureGetter_scenario_unmatched = false /\
  fst MoreExamples.GenericCaptureGetter_scenario_unmatched = empty_string.
Proof.
  split; [reflexivity|].
  apply (GenericCaptureGetter_not_ok_is_empty (layout := jsregexp_layout)
           Examples.scenario_elements 1).
  reflexivity.
Defined.

Lemma GenericCaptureGetter_after_store_witness :
  GenericCaptureGetter (layout := jsregexp_layout)
    (SetLastMatchField
       (SetLastMatchField Examples.scenario_elements (3 + 1 * 2) (Smi 1))
       (3 + 1 * 2 + 1) (Smi 2))
    1 =
  Some (if (1 =? -1) || (2 =? -1)
        then (empty_string, false)
        else (NewSubString [0x61; 0x62] 1 2, true)).
Proof.
  apply (GenericCaptureGetter_after_store (layout := jsregexp_layout)
           Examples.scenario_elements 1 4 1 2 [0x61; 0x62]).
  - vm_compute. split; [discriminate|reflexivity].
  - vm_compute. split; [discriminate|reflexivity].
  - reflexivity.
  - reflexivity.
  - lia.
  - lia.
  - vm_compute. discriminate.
Defined.

(** Writing two fields past the end of an empty buffer, then the getter on
    a buffer filled field by field. *)
Example SetLastMatchField_runs :
  SetLastMatchField [] 2 (Smi 7) = [Undefined; Undefined; Smi 7] /\
  SetLastMatchField [Smi 1; Smi 2] 0 Null = [Null; Smi 2] /\
  GenericCaptureGetter (layout := jsregexp_layout)
    (SetLastMatchField
       (SetLastMatchField
          (SetLastMatchField
             (SetLastMatchField [] 0 (Smi 2)) 1 (Str Examples.a_pair_b))
          3 (Smi 1))
       4 (Smi 3)) 0
  = Some ([0xD834; 0xDF06], true).
Proof. repeat split. Qed.

(** ** More on the dispatcher and the predicate *)

Section DispatcherFacts.
Context {host : Host}.

(** X8: when no [exec] is given and the lookup of the receiver's [exec]
    throws, RegExpExec returns that exception in the isolate the lookup
    left; no call is made, also on a JSRegExp. *)
Theorem RegExpExec_lookup_error
  (regexp : JSReceiver) (string : String)
  (isolate isolate1 : Isolate) (e : Error) :
  GetProperty (Receiver regexp)
    (NameString (NewStringFromAsciiChecked "exec")) isolate
    = (isolate1, Exception e) ->
  RegExpExec regexp string Undefined isolate = (isolate1, Exception e).
Proof.
  intros Hget. apply RegExpExec_lookup_throws.
  rewrite resolved_exec_lookup by reflexivity. exact Hget.
Qed.

(** X9: a value RegExpExec returns through a callable [exec] is a
    JSReceiver or null, and it is the value the call returned, in the
    isolate the call left. *)
Theorem RegExpExec_callable_result
  (regexp : JSReceiver) (string : String) (exec : Object)
  (isolate isolate1 isolate2 : Isolate) (exec1 result : Object) :
  resolved_exec regexp exec isolate = (isolate1, Ok exec1) ->
  IsCallable isolate1 exec1 = true ->
  RegExpExec regexp string exec isolate = (isolate2, Ok result) ->
  (IsJSReceiver result = true \/ IsNull result = true) /\
  Call exec1 (Receiver regexp) [Str string] isolate1 = (isolate2, Ok result).
Proof.
  intros Hresolved Hcallable.
  rewrite (RegExpExec_dispatch _ _ _ _ _ _ Hresolved), Hcallable.
  destruct (Call exec1 (Receiver regexp) [Str string] isolate1)
    as [isolate' [value | e |]]; try discriminate.
  destruct (IsJSReceiver value) eqn:Hreceiver;
    destruct (IsNull value) eqn:Hnull; cbn [negb andb];
    try discriminate; intros E; injection E as <- <-;
    rewrite ?Hreceiver, ?Hnull; split; auto.
Qed.

(** X10: only [Undefined] stands for a missing [exec].  Any other value
    that is not callable sends RegExpExec to the built-in path without a
    lookup of the receiver's own [exec]: the built-in call on a JSRegExp,
    the IncompatibleMethodReceiver type error on anything else, in the
    isolate it was given. *)
Theorem RegExpExec_explicit_not_callable
  (regexp : JSReceiver) (string : String) (exec : Object)
  (isolate : Isolate) :
  IsUndefined exec = false ->
  IsCallable isolate exec = false ->
  RegExpExec regexp string exec isolate =
    if IsJSRegExp isolate (Receiver regexp)
    then Call (regexp_exec_function isolate) (Receiver regexp) [Str string]
           isolate
    else (isolate,
          Exception
            (NewTypeError kIncompatibleMethodReceiver
               [Str (NewStringFromAsciiChecked "RegExp.prototype.exec");
                Receiver regexp])).
Proof.
  intros Hgiven Hcallable.
  rewrite (RegExpExec_dispatch _ _ _ _ _ _
             (resolved_exec_given regexp exec isolate Hgiven)).
  now rewrite Hcallable.
Qed.

(** X12: IsRegExp throws nothing of its own: an exception it returns is
    the exception of the lookup of the match symbol, on a JSReceiver that
    does not have the initial regexp map. *)
Theorem IsRegExp_exception_from_lookup
  (object : Object) (isolate isolate1 : Isolate) (e : Error) :
  IsRegExp object isolate = (isolate1, Exception e) ->
  GetProperty object match_symbol isolate = (isolate1, Exception e) /\
  exists receiver,
    object = Receiver receiver /\
    HasInitialRegExpMap isolate receiver = false.
Proof.
  destruct object as [| |b|value|d|s|receiver]; try discriminate.
  rewrite IsRegExp_receiver.
  destruct (HasInitialRegExpMap isolate receiver) eqn:Hmap; [discriminate|].
  destruct (GetProperty (Receiver receiver) match_symbol isolate)
    as [isolate' [match_ | e' |]]; try discriminate.
  intros E. injection E as <- <-. split; [reflexivity|].
  now exists receiver.
Qed.

(** X13: IsRegExp calls nothing and writes nothing: the isolate it leaves
    is the one it was given or the one the lookup of the match symbol
    left. *)
Theorem IsRegExp_touches_only_lookup (object : Object) (isolate : Isolate) :
  fst (IsRegExp object isolate) = isolate \/
  fst (IsRegExp object isolate) =
    fst (GetProperty object match_symbol isolate).
Proof.
  destruct object as [| |b|value|d|s|receiver]; try (now left).
  rewrite IsRegExp_receiver.
  destruct (HasInitialRegExpMap isolate receiver); [now left|].
  right.
  destruct (GetProperty (Receiver receiver) match_symbol isolate)
    as [isolate' [match_ | e' |]]; reflexivity.
Qed.

(** X14: a JSRegExp is found not to be a regexp only through its match
    symbol: when IsRegExp returns [false] on an object that is a JSRegExp,
    the lookup of the match symbol gave a value other than undefined whose
    boolean value is [false]. *)
Theorem IsRegExp_regexp_rejected_only_by_match
  (receiver : JSReceiver) (isolate isolate1 : Isolate) :
  IsRegExp (Receiver receiver) isolate = (isolate1, Ok false) ->
  IsJSRegExp isolate1 (Receiver receiver) = true ->
  exists match_,
    GetProperty (Receiver receiver) match_symbol isolate
      = (isolate1, Ok match_) /\
    IsUndefined match_ = false /\
    BooleanValue isolate1 match_ = false.
Proof.
  rewrite IsRegExp_receiver.
  destruct (HasInitialRegExpMap isolate receiver); [discriminate|].
  destruct (GetProperty (Receiver receiver) match_symbol isolate)
    as [isolate' [match_ | e' |]]; try discriminate.
  intros E Hregexp. injection E as <- E.
  exists match_. revert E. destruct (IsUndefined match_); intros E.
  - unfold IsJSRegExp in Hregexp. congruence.
  - auto.
Qed.
End DispatcherFacts.

Lemma RegExpExec_lookup_error_witness :
  RegExpExec (host := Reference.host) 25 Examples.a_pair_b Undefined
    Examples.heap = (Examples.heap, Exception (Thrown (Smi 13))).
Proof.
  apply (RegExpExec_lookup_error (host := Reference.host)
           25 Examples.a_pair_b Examples.heap Examples.heap (Thrown (Smi 13))).
  reflexivity.
Defined.

Lemma RegExpExec_callable_result_witness :
  (IsJSReceiver (Receiver 20) = true \/ IsNull (Receiver 20) = true) /\
  Call (Host := Reference.host) (Receiver 33) (Receiver 24)
    [Str Examples.a_pair_b] Examples.heap
    = (Examples.heap, Ok (Receiver 20)).
Proof.
  apply (RegExpExec_callable_result (host := Reference.host)
           24 Examples.a_pair_b Undefined
           Examples.heap Examples.heap Examples.heap (Receiver 33)
           (Receiver 20)); reflexivity.
Defined.

Lemma RegExpExec_explicit_not_callable_witness :
  RegExpExec (host := Reference.host) 20 Examples.a_pair_b Null Examples.heap =
    if IsJSRegExp (host := Reference.host) Examples.heap (Receiver 20)
    then Call (Host := Reference.host)
           (regexp_exec_function (Host := Reference.host) Examples.heap)
           (Receiver 20) [Str Examples.a_pair_b] Examples.heap
    else (Examples.heap,
          Exception
            (NewTypeError kIncompatibleMethodReceiver
               [Str (NewStringFromAsciiChecked "RegExp.prototype.exec");
                Receiver 20])).
Proof.
  apply (RegExpExec_explicit_not_callable (host := Reference.host)
           20 Examples.a_pair_b Null Examples.heap); reflexivity.
Defined.

Lemma IsRegExp_exception_from_lookup_witness :
  GetProperty (Host := Reference.host) (Receiver 25) match_symbol Examples.heap
    = (Examples.heap, Exception (Thrown (Smi 14))) /\
  exists receiver,
    Receiver 25 = Receiver receiver /\
    HasInitialRegExpMap (host := Reference.host) Examples.heap receiver = false.
Proof.
  apply (IsRegExp_exception_from_lookup (host := Reference.host)
           (Receiver 25) Examples.heap Examples.heap (Thrown (Smi 14))).
  reflexivity.
Defined.

Lemma IsRegExp_regexp_rejected_only_by_match_witness :
  exists match_,
    GetProperty (Host := Reference.host) (Receiver 27) match_symbol
      MoreExamples.heap = (MoreExamples.heap, Ok match_) /\
    IsUndefined match_ = false /\
    BooleanValue (Host := Reference.host) MoreExamples.heap match_ = false.
Proof.
  apply (IsRegExp_regexp_rejected_only_by_match (host := Reference.host)
           27 MoreExamples.heap MoreExamples.heap); reflexivity.
Defined.

Lemma SetAdvancedStringIndex_read_throws_witness :
  SetAdvancedStringIndex (host := Reference.host) 26 Examples.a_pair_b true
    MoreExamples.heap = (MoreExamples.heap, Exception (Thrown (Smi 15))).
Proof.
  apply (SetAdvancedStringIndex_read_throws (host := Reference.host)
           26 Examples.a_pair_b true MoreExamples.heap MoreExamples.heap
           (Thrown (Smi 15))).
  reflexivity.
Defined.

Lemma SetAdvancedStringIndex_coercion_throws_witness :
  SetAdvancedStringIndex (host := MoreExamples.throwing_coercion_host)
    28 Examples.a_pair_b true MoreExamples.heap
    = (MoreExamples.heap, Exception (Thrown (Smi 16))).
Proof.
  apply (SetAdvancedStringIndex_coercion_throws
           (host := MoreExamples.throwing_coercion_host)
           28 Examples.a_pair_b true
           MoreExamples.heap MoreExamples.heap MoreExamples.heap
           (Receiver 20) (Thrown (Smi 16))); reflexivity.
Defined.

(** ** The reference host leaves other objects alone *)

Lemma Reference_lookup_store_other
  (heap : Reference.Heap) (a b : JSReceiver) (o : Reference.HeapObject) :
  a <> b ->
  Reference.lookup (Reference.store heap a o) b = Reference.lookup heap b.
Proof.
  intros Hne. induction heap as [|[c o'] rest IH]; cbn.
  - destruct (Z.eqb_spec a b); [contradiction|reflexivity].
  - destruct (Z.eqb_spec c a) as [->|Hca]; cbn.
    + destruct (Z.eqb_spec a b); [contradiction|reflexivity].
    + destruct (Z.eqb_spec c b); [reflexivity|exact IH].
Qed.

Lemma Reference_set_property_other
  (a b : JSReceiver) (name : Name) (value : Object) (mode : LanguageMode)
  (heap : Reference.Heap) :
  a <> b ->
  Reference.lookup
    (fst (Reference.set_property (Receiver a) name value mode heap)) b
  = Reference.lookup heap b.
Proof.
  intros Hne. unfold Reference.set_property.
  destruct (Reference.lookup heap a) as [o|]; [|reflexivity].
  destruct (Reference.find_property (Reference.properties o) name)
    as [[v [|] | c]|]; try (destruct mode; reflexivity).
  - now apply Reference_lookup_store_other.
  - destruct (Reference.extensible o); [|destruct mode; reflexivity].
    now apply Reference_lookup_store_other.
Qed.

Lemma Reference_run_other
  (c : Reference.Code) (a b : JSReceiver) (heap : Reference.Heap) :
  a <> b ->
  Reference.lookup (fst (Reference.run c (Receiver a) heap)) b
  = Reference.lookup heap b.
Proof.
  intros Hne. destruct c as [value | value | value returned |];
    try reflexivity.
  pose proof (Reference_set_property_other a b lastIndex_string value SLOPPY
                heap Hne) as Hset.
  unfold Reference.run, bind.
  destruct (Reference.set_property (Receiver a) lastIndex_string value SLOPPY
              heap) as [heap' [v | e |]]; exact Hset.
Qed.

Lemma Reference_get_property_other
  (a b : JSReceiver) (name : Name) (heap : Reference.Heap) :
  a <> b ->
  Reference.lookup (fst (Reference.get_property (Receiver a) name heap)) b
  = Reference.lookup heap b.
Proof.
  intros Hne. unfold Reference.get_property.
  destruct (Reference.lookup heap a) as [o|]; [|reflexivity].
  destruct (Reference.find_property (Reference.properties o) name)
    as [[v w | c]|]; try reflexivity.
  now apply Reference_run_other.
Qed.

Lemma Reference_call_other
  (callable : Object) (a b : JSReceiver) (argv : list Object)
  (heap : Reference.Heap) :
  a <> b ->
  Reference.lookup (fst (Reference.call callable (Receiver a) argv heap)) b
  = Reference.lookup heap b.
Proof.
  intros Hne. unfold Reference.call.
  destruct callable as [| |x|x|x|x|f]; try reflexivity.
  destruct (Reference.lookup heap f) as [[m props ext [c|]]|];
    try reflexivity.
  now apply Reference_run_other.
Qed.

(** RegExpExec on the object at 20, with a function that stores into the
    [lastIndex] of its receiver, leaves the regexp at 10 as it was. *)
Lemma RegExpExec_preserves_witness :
  Reference.lookup
    (fst (RegExpExec (host := Reference.host) 20 Examples.a_pair_b
            (Receiver 34) Examples.heap)) 10
  = Reference.lookup Examples.heap 10.
Proof.
  apply (RegExpExec_preserves (host := Reference.host)
           (fun heap =>
              Reference.lookup heap 10 = Reference.lookup Examples.heap 10)
           20 Examples.a_pair_b (Receiver 34) Examples.heap).
  - intros iso name HP. cbn [GetProperty Reference.host].
    rewrite Reference_get_property_other by lia. exact HP.
  - intros iso callable HP. cbn [Call Reference.host].
    rewrite Reference_call_other by lia. exact HP.
  - reflexivity.
Defined.

Example RegExpExec_store_runs :
  Reference.last_index
    (fst (RegExpExec (host := Reference.host) 20 Examples.a_pair_b
            (Receiver 34) Examples.heap)) 20 = Smi 9 /\
  snd (RegExpExec (host := Reference.host) 20 Examples.a_pair_b
         (Receiver 34) Examples.heap) = Ok Null.
Proof. repeat split. Qed.

(** ** Groups are independent *)

Section LastMatchGroups.
Context {layout : RegExpImpl}.

(** X17: writing an offset of another group with SetLastMatchField does not
    change what the getter returns for a group: the getter reads only the
    count, the subject and the two offsets of its own group. *)
Theorem GenericCaptureGetter_other_offset
  (match_info : LastMatchInfo) (capture other : Z) (value : Object) :
  0 <= kLastCaptureCount < kFirstCapture ->
  0 <= kLastSubject < kFirstCapture ->
  0 <= capture -> kFirstCapture + capture * 2 + 1 <= Int.kMaxInt ->
  0 <= other -> kFirstCapture + other <= Int.kMaxInt ->
  other <> capture * 2 -> other <> capture * 2 + 1 ->
  GenericCaptureGetter
    (SetLastMatchField match_info (kFirstCapture + other) value) capture
  = GenericCaptureGetter match_info capture.
Proof.
  intros Hcount_at Hsubject_at Hcap Hfit Hother Hother_fit Hne0 Hne1.
  assert (Hu : forall z, 0 <= z <= Int.kMaxInt -> Int.to_uint32 z = z)
    by (intros; now apply Int_to_uint32_nonneg).
  unfold GenericCaptureGetter.
  unfold GetLastMatchNumberOfCaptures, GetLastMatchSubject,
    GetLastMatchCapture, GetLastMatchField, SetLastMatchField.
  rewrite Int_mul_exact by int_bounds.
  rewrite (Int_add_exact (capture * 2) 1) by int_bounds.
  rewrite !Int_add_exact by int_bounds.
  rewrite !(GetElement_SetElement_other match_info (kFirstCapture + other))
    by (rewrite !Hu by int_bounds; lia).
  reflexivity.
Qed.
End LastMatchGroups.

Lemma GenericCaptureGetter_other_offset_witness :
  GenericCaptureGetter (layout := jsregexp_layout)
    (SetLastMatchField Examples.scenario_elements (3 + 2) (Smi 0)) 0
  = GenericCaptureGetter (layout := jsregexp_layout)
      Examples.scenario_elements 0.
Proof.
  apply (GenericCaptureGetter_other_offset (layout := jsregexp_layout)
           Examples.scenario_elements 0 2 (Smi 0)).
  - vm_compute. split; [discriminate|reflexivity].
  - vm_compute. split; [discriminate|reflexivity].
  - lia.
  - vm_compute. discriminate.
  - lia.
  - vm_compute. discriminate.
  - lia.
  - lia.
Defined.
